(** * RTL_CommandBus: the I2C command protocol, its codec and the command listener

    A shallow embedding of [CommandProtocol.h], of the I2C helper functions of
    [RTL_I2C.h] and of the [CommandListener] class ([CommandListener.h], and
    [CommandListener.cpp], whose text follows the helpers in [src/RTL_I2C.h]),
    followed by the properties of the protocol engine.

    Conventions of the embedding:
    - a [byte] is [Byte.byte]; a region of memory (a buffer, the object
      representation of a struct) is a [list byte];
    - a struct is a record, a derived struct holds its base sub-object first;
    - a C++ operation that can leave its arrays (undefined behaviour) returns a
      [result], whose [Fault] says which access left which region;
    - the listener's methods run in a small state monad that also logs the
      calls the properties talk about;
    - [noInterrupts()] / [interrupts()] have no sequential effect and are not
      modelled. *)

From Stdlib Require Import List Bool Arith Lia.
From Stdlib Require Import Init.Byte Strings.Byte.
Import ListNotations.

Set Implicit Arguments.

(** ** Bytes, sizes and raw memory *)

(** Conversion of a [size_t] to a [byte] field ([Length = sizeof( *this )]). *)
Definition uint8 (n : nat) : byte :=
  match Byte.of_nat (n mod 256) with
  | Some b => b
  | None => x00
  end.

(** Conversion to [uint16_t], with its wrap-around. *)
Definition uint16_range : nat := 2 ^ 16.
Definition uint16 (n : nat) : nat := n mod uint16_range.

(** Which access left which region. *)
Inductive fault : Type :=
| WritePastEnd (capacity count : nat)
| ReadPastEnd (size count : nat).

Inductive result (A : Type) : Type :=
| Done (a : A)
| Fault (f : fault).

Arguments Done {A} a.
Arguments Fault {A} f.

(** [memcpy(dst, src, n)]: the first [n] bytes of [dst] become the first [n]
    bytes of [src].  The C function checks nothing; copying more than either
    region holds is undefined, which the embedding reports. *)
Definition memcpy (dst src : list byte) (n : nat) : result (list byte) :=
  if length dst <? n then Fault (WritePastEnd (length dst) n)
  else if length src <? n then Fault (ReadPastEnd (length src) n)
  else Done (firstn n src ++ skipn n dst).

(** [memset(dst, c, n)] with [n <= sizeof dst]. *)
Definition memset (dst : list byte) (c : byte) (n : nat) : list byte :=
  repeat c n ++ skipn n dst.

(** The characters of the C string at [p]: those before the first NUL. *)
Fixpoint c_str (p : list byte) : list byte :=
  match p with
  | [] => []
  | b :: p' => if Byte.eqb b x00 then [] else b :: c_str p'
  end.

(** [strncpy(dst, src, n)] with [n <= sizeof dst]: at most [n] characters of
    the string, then NULs up to [n] bytes in all. *)
Definition strncpy (dst src : list byte) (n : nat) : list byte :=
  let s := firstn n (c_str src) in
  s ++ repeat x00 (n - length s) ++ skipn n dst.

(** An array before anything is stored in it.  Every array below is filled by
    [memset] before it is read, so the placeholder is never observed. *)
Definition uninitialized (n : nat) : list byte := repeat x00 n.

(** ** CommandProtocol.h *)

Definition CMD_NONE : byte := x00.
Definition CMD_QUERY_ID : byte := x01.
Definition CMD_QUERY_RESPONSE : byte := x02.
Definition CMD_RESET_DEVICE : byte := x03.
Definition CMD_MASTER_ADDR : byte := x04.
Definition CMD_EXECUTE : byte := x05.
Definition CMD_ECHO : byte := x06.

Definition NOTIFY_CMD_INVALID : byte := xfe.

Definition CMD_RESPONSE_OK : byte := x00.
Definition CMD_RESPONSE_DEFERRED : byte := x01.
Definition CMD_RESPONSE_NOTREADY : byte := x02.
Definition CMD_RESPONSE_BUSY : byte := x03.
Definition CMD_RESPONSE_ERROR : byte := x04.
Definition CMD_RESPONSE_UNKNOWN : byte := x05.

Module CommandMessage.
Record t : Type := mk { Length : byte; CommandCode : byte }.

Definition sizeof : nat := 1 + 1.

Definition ctor (commandCode : byte) : t :=
  {| Length := uint8 sizeof; CommandCode := commandCode |}.

Definition set_Length (l : byte) (m : t) : t :=
  {| Length := l; CommandCode := CommandCode m |}.

(** The object as [(byte* )&m] shows it. *)
Definition raw (m : t) : list byte := [Length m; CommandCode m].

(** The struct seen through [(const CommandMessage* )p]. *)
Definition overlay (p : list byte) : option t :=
  match p with
  | l :: c :: _ => Some {| Length := l; CommandCode := c |}
  | _ => None
  end.
End CommandMessage.

Module CommandExecute.
Record t : Type := mk
  { base : CommandMessage.t;
    RequestorAddress : byte;
    CommandLine : list byte  (* char[27] *) }.

Definition sizeof_CommandLine : nat := 27.
Definition sizeof : nat := CommandMessage.sizeof + 1 + sizeof_CommandLine.

Definition ctor (requestorAddr : byte) (commandLine : list byte) : t :=
  {| base := CommandMessage.set_Length (uint8 sizeof) (CommandMessage.ctor CMD_EXECUTE);
     RequestorAddress := requestorAddr;
     CommandLine :=
       strncpy (memset (uninitialized sizeof_CommandLine) x00 sizeof_CommandLine)
               commandLine (sizeof_CommandLine - 1) |}.

Definition Length (e : t) : byte := CommandMessage.Length (base e).

Definition raw (e : t) : list byte :=
  CommandMessage.raw (base e) ++ RequestorAddress e :: CommandLine e.

Definition overlay (p : list byte) : option t :=
  match CommandMessage.overlay p, skipn CommandMessage.sizeof p with
  | Some b, r :: rest =>
      if sizeof_CommandLine <=? length rest
      then Some {| base := b; RequestorAddress := r;
                   CommandLine := firstn sizeof_CommandLine rest |}
      else None
  | _, _ => None
  end.
End CommandExecute.

Module CommandEcho.
Record t : Type := mk
  { base : CommandMessage.t;
    EchoData : list byte  (* char[27] *) }.

Definition sizeof_EchoData : nat := 27.
Definition sizeof : nat := CommandMessage.sizeof + sizeof_EchoData.

Definition ctor (echoData : list byte) : t :=
  {| base := CommandMessage.set_Length (uint8 sizeof) (CommandMessage.ctor CMD_ECHO);
     EchoData :=
       strncpy (memset (uninitialized sizeof_EchoData) x00 sizeof_EchoData)
               echoData (sizeof_EchoData - 1) |}.

Definition Length (e : t) : byte := CommandMessage.Length (base e).

Definition raw (e : t) : list byte := CommandMessage.raw (base e) ++ EchoData e.

Definition overlay (p : list byte) : option t :=
  match CommandMessage.overlay p with
  | Some b =>
      let rest := skipn CommandMessage.sizeof p in
      if sizeof_EchoData <=? length rest
      then Some {| base := b; EchoData := firstn sizeof_EchoData rest |}
      else None
  | None => None
  end.
End CommandEcho.

Module CommandQueryResponseReady.
Record t : Type := mk
  { base : CommandMessage.t;
    ResponseID : byte;
    OriginalCommand : byte }.

Definition sizeof : nat := CommandMessage.sizeof + 1 + 1.

(** The constructor never stores into [OriginalCommand]: the field keeps
    whatever its memory held, here [indeterminate]. *)
Definition ctor (indeterminate : byte) (responseID : byte) : t :=
  {| base := CommandMessage.set_Length (uint8 sizeof)
               (CommandMessage.ctor CMD_QUERY_RESPONSE);
     ResponseID := responseID;
     OriginalCommand := indeterminate |}.

Definition Length (q : t) : byte := CommandMessage.Length (base q).

Definition raw (q : t) : list byte :=
  CommandMessage.raw (base q) ++ [ResponseID q; OriginalCommand q].

Definition overlay (p : list byte) : option t :=
  match CommandMessage.overlay p, skipn CommandMessage.sizeof p with
  | Some b, i :: o :: _ =>
      Some {| base := b; ResponseID := i; OriginalCommand := o |}
  | _, _ => None
  end.
End CommandQueryResponseReady.

Module CommandResponse.
Record t : Type := mk { Length : byte; ResponseCode : byte; ResponseID : byte }.

Definition sizeof : nat := 1 + 1 + 1.

Definition ctor (responseCode responseID : byte) : t :=
  {| Length := uint8 sizeof; ResponseCode := responseCode; ResponseID := responseID |}.

(** [CommandResponse(code)]: [responseID] takes its default, 0. *)
Definition ctor1 (responseCode : byte) : t := ctor responseCode x00.

(** [CommandResponse()]: both arguments take their defaults. *)
Definition ctor0 : t := ctor CMD_RESPONSE_OK x00.

Definition set_Length (l : byte) (r : t) : t :=
  {| Length := l; ResponseCode := ResponseCode r; ResponseID := ResponseID r |}.

Definition raw (r : t) : list byte := [Length r; ResponseCode r; ResponseID r].

Definition overlay (p : list byte) : option t :=
  match p with
  | l :: c :: i :: _ => Some {| Length := l; ResponseCode := c; ResponseID := i |}
  | _ => None
  end.
End CommandResponse.

Module CommandResponseQueryID.
Record t : Type := mk { base : CommandResponse.t; ID : byte }.

Definition sizeof : nat := CommandResponse.sizeof + 1.

(** The base sub-object is built by [CommandResponse()]. *)
Definition ctor (id : byte) : t :=
  {| base := CommandResponse.set_Length (uint8 sizeof) CommandResponse.ctor0;
     ID := id |}.

Definition Length (r : t) : byte := CommandResponse.Length (base r).

Definition raw (r : t) : list byte := CommandResponse.raw (base r) ++ [ID r].

Definition overlay (p : list byte) : option t :=
  match CommandResponse.overlay p, skipn CommandResponse.sizeof p with
  | Some b, i :: _ => Some {| base := b; ID := i |}
  | _, _ => None
  end.
End CommandResponseQueryID.

Module CommandResponseDeferred.
Record t : Type := mk { base : CommandResponse.t }.

Definition sizeof : nat := CommandResponse.sizeof.

Definition ctor (responseID : byte) : t :=
  {| base := CommandResponse.set_Length (uint8 sizeof)
               (CommandResponse.ctor CMD_RESPONSE_DEFERRED responseID) |}.

Definition Length (r : t) : byte := CommandResponse.Length (base r).

Definition raw (r : t) : list byte := CommandResponse.raw (base r).

Definition overlay (p : list byte) : option t :=
  match CommandResponse.overlay p with
  | Some b => Some {| base := b |}
  | None => None
  end.
End CommandResponseDeferred.

(** What the round-trip property asks of a frame [f] of a struct with the
    given size, length field, object representation and overlay: the length
    field holds the size, the object has that many bytes, and reading the
    struct back through a pointer to those bytes, whatever follows them in
    the buffer, gives [f] again. *)
Definition stamped_roundtrip {T : Type} (size : nat) (Length : T -> byte)
  (raw : T -> list byte) (overlay : list byte -> option T) (f : T) : Prop :=
  Byte.to_nat (Length f) = size /\
  length (raw f) = size /\
  forall rest, overlay (raw f ++ rest) = Some f.

(** The header fields of a frame lying at [p], as the listener reads them
    through a [CommandMessage*] or a [CommandResponse*]. *)
Definition Length_at (p : list byte) : byte := nth 0 p x00.
Definition CommandCode_at (p : list byte) : byte := nth 1 p x00.
Definition ResponseCode_at (p : list byte) : byte := nth 1 p x00.
Definition ResponseID_at (p : list byte) : byte := nth 2 p x00.

(** ** The Arduino [TwoWire] port

    The bus driver belongs to the Arduino core, not to this library.  The
    functions below use three of its methods; a port is modelled by the bytes
    waiting in its receive buffer and the bytes handed to it for sending. *)

Record TwoWire : Type := mkTwoWire { rx : list byte; tx : list byte }.

Definition TwoWire_available (twi : TwoWire) : nat := length (rx twi).

Definition TwoWire_read (twi : TwoWire) : option byte * TwoWire :=
  match rx twi with
  | [] => (None, twi)
  | b :: rest => (Some b, {| rx := rest; tx := tx twi |})
  end.

(** [twi.write(p, n)] sends the [n] bytes at [p]. *)
Definition TwoWire_write (twi : TwoWire) (p : list byte) (n : nat) : result TwoWire :=
  if length p <? n then Fault (ReadPastEnd (length p) n)
  else Done {| rx := rx twi; tx := tx twi ++ firstn n p |}.

(** ** RTL_I2C.h *)

(** [pDest[i] = b]. *)
Definition store (pDest : list byte) (i : nat) (b : byte) : list byte :=
  firstn i pDest ++ b :: skipn (S i) pDest.

(** The loop of [I2C_Read(twi, pDest, sizeDest)]:
    [while (bytesRead < sizeDest && twi.available()) pDest[bytesRead++] = twi.read();]
    Every turn takes one byte from the port, so the recursion is on the bytes
    that wait there; [bytesRead] is a [uint16_t]. *)
Fixpoint I2C_Read_loop (waiting pDest : list byte) (sizeDest bytesRead : nat)
  : result (nat * list byte * list byte) :=
  match waiting with
  | [] => Done (bytesRead, waiting, pDest)
  | b :: rest =>
      if bytesRead <? sizeDest then
        if bytesRead <? length pDest
        then I2C_Read_loop rest (store pDest bytesRead b) sizeDest (uint16 (S bytesRead))
        else Fault (WritePastEnd (length pDest) (S bytesRead))
      else Done (bytesRead, waiting, pDest)
  end.

(** [I2C_Read(twi, pDest, sizeDest)]: the count returned, the port and the
    destination afterwards. *)
Definition I2C_Read (twi : TwoWire) (pDest : list byte) (sizeDest : nat)
  : result (nat * TwoWire * list byte) :=
  match I2C_Read_loop (rx twi) pDest sizeDest 0 with
  | Done (bytesRead, rest, dest) => Done (bytesRead, {| rx := rest; tx := tx twi |}, dest)
  | Fault f => Fault f
  end.

(** A type [T] of the templates: its size and the object representation of
    its values, which is what [(uint8_t* )&value] points to. *)
Class Repr (T : Type) : Type :=
  { sizeof : nat;
    raw : T -> list byte;
    raw_length : forall v : T, length (raw v) = sizeof }.

(** [template <typename T> I2C_Read(twi, T& value)]; the last component is the
    object representation of [value] after the call. *)
Definition I2C_Read_T {T : Type} `{Repr T} (twi : TwoWire) (value : T)
  : result (nat * TwoWire * list byte) :=
  I2C_Read twi (raw value) sizeof.

(** [template <typename T> I2C_Write(twi, const T& value)]. *)
Definition I2C_Write {T : Type} `{Repr T} (twi : TwoWire) (value : T)
  : result (nat * TwoWire) :=
  match TwoWire_write twi (raw value) sizeof with
  | Done twi' => Done (uint16 sizeof, twi')
  | Fault f => Fault f
  end.

#[export] Instance Repr_byte : Repr byte :=
  {| sizeof := 1; raw := fun b => [b]; raw_length := fun _ => eq_refl |}.

(** [byte[n]]. *)
Definition array (n : nat) : Type := { bytes : list byte | length bytes = n }.

#[export] Instance Repr_array (n : nat) : Repr (array n) :=
  {| sizeof := n; raw := @proj1_sig _ _; raw_length := @proj2_sig _ _ |}.

Definition zeros (n : nat) : array n := exist _ (repeat x00 n) (repeat_length x00 n).

#[export] Instance Repr_CommandMessage : Repr CommandMessage.t :=
  {| sizeof := CommandMessage.sizeof; raw := CommandMessage.raw;
     raw_length := fun _ => eq_refl |}.

#[export] Instance Repr_CommandResponse : Repr CommandResponse.t :=
  {| sizeof := CommandResponse.sizeof; raw := CommandResponse.raw;
     raw_length := fun _ => eq_refl |}.

#[export] Instance Repr_CommandResponseQueryID : Repr CommandResponseQueryID.t :=
  {| sizeof := CommandResponseQueryID.sizeof; raw := CommandResponseQueryID.raw;
     raw_length := fun _ => eq_refl |}.

(** ** The calls a run of the listener makes, and the monad of its methods *)

(** A [const CommandMessage*]: into the listener's own [CommandBuffer], or to
    a command object of the caller. *)
Inductive CommandPtr : Type :=
| AtCommandBuffer
| AtCommand (object : list byte).

(** The [const CommandResponse*] that [GetResponse] returns: into the
    listener's [ResponseBuffer], or to the static [responseNotReady]. *)
Inductive ResponsePtr : Type :=
| AtResponseBuffer
| AtResponseNotReady.

(** The calls that are logged.  [pResponse] is [None] for [NULL], else the
    response object pointed to. *)
Inductive call : Type :=
| CallOnBegin
| CallOnCommand (pCommand : CommandPtr)
| CallPostResponse (pResponse : option (list byte)).

Definition is_OnCommand (c : call) : bool :=
  match c with CallOnCommand _ => true | _ => false end.

Definition is_PostResponse (c : call) : bool :=
  match c with CallPostResponse _ => true | _ => false end.

(** The dispatches to the handler in a log, and whether it has a
    [PostResponse]. *)
Definition dispatches (log : list call) : list call := filter is_OnCommand log.
Definition posts (log : list call) : bool := existsb is_PostResponse log.

(** A method over the object state [St]: it ends in a fault, or yields a
    value, the new state and the calls made. *)
Definition M (St A : Type) : Type := St -> result (A * St * list call).

Definition ret {St A : Type} (a : A) : M St A := fun s => Done (a, s, []).

Definition bind {St A B : Type} (m : M St A) (k : A -> M St B) : M St B :=
  fun s =>
    match m s with
    | Done (a, s1, log1) =>
        match k a s1 with
        | Done (b, s2, log2) => Done (b, s2, log1 ++ log2)
        | Fault f => Fault f
        end
    | Fault f => Fault f
    end.

Definition get {St : Type} : M St St := fun s => Done (s, s, []).
Definition modify {St : Type} (f : St -> St) : M St unit := fun s => Done (tt, f s, []).
Definition tell {St : Type} (c : call) : M St unit := fun s => Done (tt, s, [c]).
Definition lift {St A : Type} (r : result A) : M St A :=
  fun s => match r with Done a => Done (a, s, []) | Fault f => Fault f end.

Notation "x <- m ;; k" := (bind m (fun x => k))
  (at level 61, m at next level, right associativity).
Notation "m ;; k" := (bind m (fun _ => k))
  (at level 61, right associativity).

(** ** CommandListener.h, CommandListener.cpp *)

Section Listener.

(** [CommandListener] derives from [EventSource] of the event framework,
    which is another library: the state of that base sub-object and the
    framework's [EventSource::Poll] are parameters. *)
Variable EventSource : Type.
Variable EventSource_Poll : EventSource -> EventSource.

Definition BUFFER_SIZE : nat := 32.

Record CommandListener : Type := mkCommandListener
  { base : EventSource;
    CommandBuffer : list byte;    (* byte CommandBuffer[32] *)
    ResponseBuffer : list byte;   (* byte ResponseBuffer[32] *)
    CommandPending : bool;
    ResponsePending : bool;
    _myDeviceID : byte }.

(** Both arrays have their declared size. *)
Definition well_formed (this : CommandListener) : Prop :=
  length (CommandBuffer this) = BUFFER_SIZE /\
  length (ResponseBuffer this) = BUFFER_SIZE.

Definition set_base (b : EventSource) (this : CommandListener) :=
  {| base := b; CommandBuffer := CommandBuffer this;
     ResponseBuffer := ResponseBuffer this; CommandPending := CommandPending this;
     ResponsePending := ResponsePending this; _myDeviceID := _myDeviceID this |}.

Definition set_CommandBuffer (buf : list byte) (this : CommandListener) :=
  {| base := base this; CommandBuffer := buf;
     ResponseBuffer := ResponseBuffer this; CommandPending := CommandPending this;
     ResponsePending := ResponsePending this; _myDeviceID := _myDeviceID this |}.

Definition set_ResponseBuffer (buf : list byte) (this : CommandListener) :=
  {| base := base this; CommandBuffer := CommandBuffer this;
     ResponseBuffer := buf; CommandPending := CommandPending this;
     ResponsePending := ResponsePending this; _myDeviceID := _myDeviceID this |}.

Definition set_CommandPending (v : bool) (this : CommandListener) :=
  {| base := base this; CommandBuffer := CommandBuffer this;
     ResponseBuffer := ResponseBuffer this; CommandPending := v;
     ResponsePending := ResponsePending this; _myDeviceID := _myDeviceID this |}.

Definition set_ResponsePending (v : bool) (this : CommandListener) :=
  {| base := base this; CommandBuffer := CommandBuffer this;
     ResponseBuffer := ResponseBuffer this; CommandPending := CommandPending this;
     ResponsePending := v; _myDeviceID := _myDeviceID this |}.

(** The constructor stores the device ID and nothing else: the buffers and
    the two flags keep what the object's memory held, [memory]. *)
Definition CommandListener_ctor (memory : CommandListener) (deviceID : byte)
  : CommandListener :=
  {| base := base memory; CommandBuffer := CommandBuffer memory;
     ResponseBuffer := ResponseBuffer memory; CommandPending := CommandPending memory;
     ResponsePending := ResponsePending memory; _myDeviceID := deviceID |}.

(** The listener after [memcpy(ResponseBuffer, pResponse, n)] and
    [ResponsePending = true]. *)
Definition posted (response : list byte) (n : nat) (this : CommandListener) : CommandListener :=
  set_ResponsePending true
    (set_ResponseBuffer (firstn n response ++ skipn n (ResponseBuffer this)) this).

(** The listener after [CommandPending = true] and
    [memcpy(CommandBuffer, pCommand, n)]. *)
Definition captured (command : list byte) (n : nat) (this : CommandListener) : CommandListener :=
  set_CommandBuffer (firstn n command ++ skipn n (CommandBuffer this))
    (set_CommandPending true this).

Local Abbreviation Method := (M CommandListener).

(** The virtual methods that a device class may override. *)
Record VTable : Type := mkVTable
  { vOnBegin : Method unit;
    vOnCommand : CommandPtr -> Method unit;
    vIsResponseExpected : CommandPtr -> CommandListener -> bool }.

(** The bytes a command pointer points to. *)
Definition command_at (p : CommandPtr) (this : CommandListener) : list byte :=
  match p with
  | AtCommandBuffer => CommandBuffer this
  | AtCommand object => object
  end.

(** [static auto responseNotReady = CommandResponse(CMD_RESPONSE_NOTREADY)]. *)
Definition responseNotReady : CommandResponse.t :=
  CommandResponse.ctor1 CMD_RESPONSE_NOTREADY.

(** The bytes a pointer returned by [GetResponse] points to. *)
Definition response_at (p : ResponsePtr) (this : CommandListener) : list byte :=
  match p with
  | AtResponseBuffer => ResponseBuffer this
  | AtResponseNotReady => CommandResponse.raw responseNotReady
  end.

Definition PostResponse (pResponse : option (list byte)) : Method unit :=
  tell (CallPostResponse pResponse) ;;
  match pResponse with
  | None => ret tt
  | Some response =>
      this <- get ;;
      buf <- lift (memcpy (ResponseBuffer this) response
                     (Byte.to_nat (Length_at response))) ;;
      modify (set_ResponseBuffer buf) ;;
      modify (set_ResponsePending true)
  end.

Definition DefaultCommandHandler (pCommand : CommandPtr) : Method unit :=
  this <- get ;;
  if Byte.eqb (CommandCode_at (command_at pCommand this)) CMD_QUERY_ID
  then
    let response := CommandResponseQueryID.ctor (_myDeviceID this) in
    PostResponse (Some (CommandResponseQueryID.raw response))
  else ret tt.

(** The base class's [OnCommand]. *)
Definition OnCommand (pCommand : CommandPtr) : Method unit :=
  DefaultCommandHandler pCommand.

(** The base class's [OnBegin] and [IsResponseExpected]. *)
Definition OnBegin : Method unit := ret tt.
Definition IsResponseExpected (pCommand : CommandPtr) (this : CommandListener)
  : bool := false.

(** The virtual table of [CommandListener] itself. *)
Definition CommandListener_vtable : VTable :=
  {| vOnBegin := OnBegin; vOnCommand := OnCommand;
     vIsResponseExpected := IsResponseExpected |}.

Variable vt : VTable.

Definition Begin : Method unit :=
  modify (set_CommandPending false) ;;
  modify (set_ResponsePending false) ;;
  tell CallOnBegin ;;
  vOnBegin vt.

Definition Poll : Method unit :=
  this <- get ;;
  (if CommandPending this
   then tell (CallOnCommand AtCommandBuffer) ;;
        vOnCommand vt AtCommandBuffer ;;
        modify (set_CommandPending false)
   else ret tt) ;;
  modify (fun this => set_base (EventSource_Poll (base this)) this).

(** [OnEvent]: the [switch] has the [default] case only. *)
Definition OnEvent (EventID : nat) : Method unit := ret tt.

Definition GetResponse : Method ResponsePtr :=
  this <- get ;;
  if ResponsePending this
  then modify (set_ResponsePending false) ;; ret AtResponseBuffer
  else ret AtResponseNotReady.

(** The base class's [SendResponse]; it yields the port afterwards. *)
Definition SendResponse (twi : TwoWire) : Method TwoWire :=
  let response := CommandResponse.ctor1 CMD_RESPONSE_UNKNOWN in
  lift (TwoWire_write twi (CommandResponse.raw response) CommandResponse.sizeof).

(** [OnCommandReceived(const CommandMessage* pCommand)].  In the source the
    body of this method is commented out, as is its declaration; the
    embedding follows the text of the body. *)
Definition OnCommandReceived (pCommand : list byte) : Method unit :=
  this <- get ;;
  if CommandPending this
  then
    let responseBusy := CommandResponse.ctor1 CMD_RESPONSE_BUSY in
    if vIsResponseExpected vt (AtCommand pCommand) this
    then PostResponse (Some (CommandResponse.raw responseBusy))
    else ret tt
  else
    modify (set_CommandPending true) ;;
    this <- get ;;
    buf <- lift (memcpy (CommandBuffer this) pCommand
                   (Byte.to_nat (Length_at pCommand))) ;;
    modify (set_CommandBuffer buf).

(** [while (twi.available()) twi.read();] *)
Fixpoint flush (waiting : list byte) : list byte :=
  match waiting with
  | [] => []
  | _ :: rest => flush rest
  end.

(** [OnCommandReceived(TwoWire& twi, int messageLength)].  The method uses
    its [int] argument in one place, as the [size_t sizeDest] of [I2C_Read]:
    [messageLength] here is the argument as that conversion gives it (a
    negative argument is a large [size_t]).  Commented out in the source like
    the overload above. *)
Definition OnCommandReceived_twi (twi : TwoWire) (messageLength : nat)
  : Method TwoWire :=
  this <- get ;;
  if CommandPending this
  then ret {| rx := flush (rx twi); tx := tx twi |}
  else
    modify (set_CommandPending true) ;;
    this <- get ;;
    r <- lift (I2C_Read twi (CommandBuffer this) messageLength) ;;
    let '(bytesRead, twi', buf) := r in
    modify (set_CommandBuffer buf) ;;
    (if bytesRead =? 0 then modify (set_CommandPending false) else ret tt) ;;
    ret twi'.

(** The calls a client of the listener can make, and a run of them. *)
Inductive op : Type :=
| Op_Begin
| Op_Poll
| Op_OnEvent (EventID : nat)
| Op_GetResponse
| Op_SendResponse (twi : TwoWire)
| Op_PostResponse (pResponse : option (list byte))
| Op_OnCommandReceived (pCommand : list byte)
| Op_OnCommandReceived_twi (twi : TwoWire) (messageLength : nat).

Definition step (o : op) : Method unit :=
  match o with
  | Op_Begin => Begin
  | Op_Poll => Poll
  | Op_OnEvent id => OnEvent id
  | Op_GetResponse => GetResponse ;; ret tt
  | Op_SendResponse twi => SendResponse twi ;; ret tt
  | Op_PostResponse pResponse => PostResponse pResponse
  | Op_OnCommandReceived pCommand => OnCommandReceived pCommand
  | Op_OnCommandReceived_twi twi messageLength =>
      OnCommandReceived_twi twi messageLength ;; ret tt
  end.

Fixpoint run (ops : list op) : Method unit :=
  match ops with
  | [] => ret tt
  | o :: rest => step o ;; run rest
  end.

End Listener.

Arguments CommandListener_vtable {EventSource}.

(** A device class that overrides [IsResponseExpected] alone: every command
    is to be answered. *)
Definition answering_vtable {EventSource : Type} : VTable EventSource :=
  {| vOnBegin := OnBegin (EventSource := EventSource);
     vOnCommand := OnCommand (EventSource := EventSource);
     vIsResponseExpected := fun _ _ => true |}.

(** A listener with device ID 7 after [Begin], in memory that held zeros,
    with an event source that has no state; and the same listener holding a
    captured CMD_QUERY_ID command. *)
Definition device7 : CommandListener unit :=
  {| base := tt;
     CommandBuffer := repeat x00 BUFFER_SIZE;
     ResponseBuffer := repeat x00 BUFFER_SIZE;
     CommandPending := false;
     ResponsePending := false;
     _myDeviceID := x07 |}.

Definition device7_queried : CommandListener unit :=
  captured (CommandMessage.raw (CommandMessage.ctor CMD_QUERY_ID))
    CommandMessage.sizeof device7.

(** A response frame of 33 bytes, which says so in its Length field. *)
Definition frame33 : list byte := x21 :: repeat x00 32.

(** ** Reception *)

Section Reception.

Variable EventSource : Type.
Variable vt : VTable EventSource.

(** Modelled from the spec: the configuration of section 4.2 for an oversized
    frame, "answer UNKNOWN or drop per configuration".  The listener of the
    source has no such setting. *)
Inductive OversizePolicy : Type :=
| AnswerUnknown
| DropFrame.

(** Modelled from the spec: the operation Receive(rawBytes) of section 4.2,
    which the listener of the source lacks (its two [OnCommandReceived]
    methods and their declarations are commented out).  In the spec's words:
    if a command is already pending, the new command is rejected, a BUSY
    response is written immediately if the incoming command expects a
    response, otherwise the incoming bytes are discarded; if no command is
    pending, the raw bytes are copied into the fixed receive buffer and the
    pending flag is set; an oversized frame is detected through its declared
    length before copying and is answered UNKNOWN or dropped.  Writing a
    response is the source's [PostResponse], expecting one is its virtual
    [IsResponseExpected]. *)
Definition Receive (policy : OversizePolicy) (rawBytes : list byte)
  : M (CommandListener EventSource) unit :=
  this <- get ;;
  if CommandPending this
  then
    if vIsResponseExpected vt (AtCommand rawBytes) this
    then PostResponse (Some (CommandResponse.raw (CommandResponse.ctor1 CMD_RESPONSE_BUSY)))
    else ret tt
  else
    if BUFFER_SIZE <? Byte.to_nat (Length_at rawBytes)
    then
      match policy with
      | AnswerUnknown =>
          PostResponse (Some (CommandResponse.raw (CommandResponse.ctor1 CMD_RESPONSE_UNKNOWN)))
      | DropFrame => ret tt
      end
    else
      buf <- lift (memcpy (CommandBuffer this) rawBytes
                     (Byte.to_nat (Length_at rawBytes))) ;;
      modify (set_CommandBuffer buf) ;;
      modify (set_CommandPending true).

End Reception.

(** A method is quiet when, as long as it makes no [PostResponse], it leaves a
    clear [ResponsePending] clear. *)
Definition quiet {EventSource A : Type} (m : M (CommandListener EventSource) A) : Prop :=
  forall this a this' log,
    m this = Done (a, this', log) ->
    posts log = false ->
    ResponsePending this = false ->
    ResponsePending this' = false.

(** The overrides of a device class raise [ResponsePending] through
    [PostResponse] only. *)
Definition quiet_overrides {EventSource : Type} (vt : VTable EventSource) : Prop :=
  quiet (vOnBegin vt) /\ forall pCommand, quiet (vOnCommand vt pCommand).

(** ** The deferred-response registry *)

Module Registry.

(** Modelled from the spec: the reference to a pending response that an entry
    of the registry holds (section 3).  The listener of the source has no
    registry: [ResponseItem], [_deferredResponseList] and
    [PostDeferredResponse] are commented out. *)
Definition reference : Type := nat.

(** Modelled from the spec: DeferredResponseEntry of section 3, "a registry
    slot: inUse flag, a reference to the pending CommandResponse payload";
    the registry is missing from the source. *)
Record DeferredResponseEntry : Type := mkEntry
  { inUse : bool; response : option reference }.

(** Modelled from the spec: a slot that is not in use; the registry is
    missing from the source. *)
Definition free : DeferredResponseEntry := {| inUse := false; response := None |}.

(** Modelled from the spec: the slot as Register leaves it, marked in use and
    holding the reference (section 4.3); the registry is missing from the
    source. *)
Definition taken (r : reference) : DeferredResponseEntry :=
  {| inUse := true; response := Some r |}.

(** Modelled from the spec: the fixed capacity of the registry (section 3),
    which the source names only in a commented-out line,
    [DEFERRED_RESPONSE_LIST_SIZE = 5]. *)
Definition DEFERRED_RESPONSE_LIST_SIZE : nat := 5.

(** Modelled from the spec: the registry with every slot free; the registry
    is missing from the source. *)
Definition empty (capacity : nat) : list DeferredResponseEntry := repeat free capacity.

(** Modelled from the spec: the linear scan of Register (section 4.3), which
    "allocates a free slot, marks the slot in-use, stores a reference to the
    response object"; [None] when no slot is free.  The registry is missing
    from the source. *)
Fixpoint allocate (registry : list DeferredResponseEntry) (r : reference)
  : option (list DeferredResponseEntry) :=
  match registry with
  | [] => None
  | entry :: rest =>
      if inUse entry
      then
        match allocate rest r with
        | Some rest' => Some (entry :: rest')
        | None => None
        end
      else Some (taken r :: rest)
  end.

Section Register.

(** Modelled from the spec: the choice of the "fresh response ID" that
    Register assigns (section 4.3); the spec does not say how it is chosen,
    and the registry is missing from the source. *)
Variable fresh : list DeferredResponseEntry -> byte.

(** Modelled from the spec: Register(response) -> responseID of section 4.3,
    missing from the source.  It yields the response ID, [None] for the
    failure ("fails (no-op / signals capacity error) if no free slot
    exists"), and the registry afterwards. *)
Definition Register (registry : list DeferredResponseEntry) (r : reference)
  : option byte * list DeferredResponseEntry :=
  match allocate registry r with
  | Some registry' => (Some (fresh registry), registry')
  | None => (None, registry)
  end.

(** Modelled from the spec: one Register after the other, with the results
    in order and the registry at the end; the registry is missing from the
    source. *)
Fixpoint register_all (registry : list DeferredResponseEntry)
  (responses : list reference) : list (option byte) * list DeferredResponseEntry :=
  match responses with
  | [] => ([], registry)
  | r :: rest =>
      let (id, registry') := Register registry r in
      let (ids, final) := register_all registry' rest in
      (id :: ids, final)
  end.

End Register.

End Registry.

(** ** The message, command and request functions of RTL_I2C.h *)

Section Bus.

(** The transmission methods of [TwoWire] are the Arduino core's; what they
    do on the wire is left open.  [endTransmission(stop)] yields the status
    code, [requestFrom(address, quantity)] the number of bytes received, and
    both the port afterwards. *)
Variable beginTransmission : TwoWire -> byte -> TwoWire.
Variable endTransmission : TwoWire -> bool -> nat * TwoWire.
Variable requestFrom : TwoWire -> byte -> nat -> nat * TwoWire.

(** [(uint8_t)twi.read()]: [read] returns -1 when nothing waits. *)
Definition read_uint8 (twi : TwoWire) : byte * TwoWire :=
  match TwoWire_read twi with
  | (Some b, twi') => (b, twi')
  | (None, twi') => (xff, twi')
  end.

(** [for (auto i = 0; i < bytesRead; i++)
       if (i < responseLength) pResponse[i] = (uint8_t)twi.read();]
    with [turns] turns left, [turns = bytesRead - i]. *)
Fixpoint receive_loop (turns i responseLength : nat) (twi : TwoWire)
  (pResponse : list byte) : result (TwoWire * list byte) :=
  match turns with
  | 0 => Done (twi, pResponse)
  | S turns' =>
      if i <? responseLength then
        let (b, twi') := read_uint8 twi in
        if i <? length pResponse
        then receive_loop turns' (S i) responseLength twi' (store pResponse i b)
        else Fault (WritePastEnd (length pResponse) (S i))
      else receive_loop turns' (S i) responseLength twi pResponse
  end.

Definition is_request (pResponse : option (list byte)) : bool :=
  match pResponse with Some _ => true | None => false end.

(** [I2C_SendMessage(twi, address, pMessage, messageLength, pResponse,
    responseLength)], whose two lengths are [uint8_t]: the status code, the
    port and the response buffer ([None] for a [NULL] pointer) afterwards. *)
Definition I2C_SendMessage (twi : TwoWire) (address : byte)
  (pMessage : list byte) (messageLength : byte)
  (pResponse : option (list byte)) (responseLength : byte)
  : result (nat * TwoWire * option (list byte)) :=
  let messageLength := Byte.to_nat messageLength in
  let responseLength := Byte.to_nat responseLength in
  let twi := beginTransmission twi address in
  match TwoWire_write twi pMessage messageLength with
  | Fault f => Fault f
  | Done twi =>
      let isRequest := is_request pResponse in
      let (statusCode, twi) := endTransmission twi (negb isRequest) in
      match pResponse with
      | Some buffer =>
          if statusCode =? 0 then
            let (bytesRead, twi) := requestFrom twi address responseLength in
            match receive_loop bytesRead 0 responseLength twi buffer with
            | Fault f => Fault f
            | Done (twi, buffer) =>
                Done (if 0 <? bytesRead then 0 else 4, twi, Some buffer)
            end
          else Done (statusCode, twi, pResponse)
      | None => Done (statusCode, twi, pResponse)
      end
  end.

(** [I2C_SendMessage(twi, address, pMessage, messageLength)], whose length is
    a [uint8_t]. *)
Definition I2C_SendMessage_only (twi : TwoWire) (address : byte)
  (pMessage : list byte) (messageLength : byte) : result (nat * TwoWire) :=
  let messageLength := Byte.to_nat messageLength in
  let twi := beginTransmission twi address in
  match TwoWire_write twi pMessage messageLength with
  | Fault f => Fault f
  | Done twi => Done (endTransmission twi true)
  end.

(** [template <typename T> I2C_SendMessage(twi, address, const T& message)]. *)
Definition I2C_SendMessage_T {T : Type} `{Repr T} (twi : TwoWire) (address : byte)
  (message : T) : result (nat * TwoWire) :=
  let twi := beginTransmission twi address in
  match TwoWire_write twi (raw message) sizeof with
  | Fault f => Fault f
  | Done twi => Done (endTransmission twi true)
  end.

(** [I2C_SendCommand(twi, address, cmd, pCmdData, cmdLength, pResponse,
    responseLength)], whose two lengths are [size_t]; [pCmdData] is [None]
    for [NULL]. *)
Definition I2C_SendCommand (twi : TwoWire) (address : byte) (cmd : byte)
  (pCmdData : option (list byte)) (cmdLength : nat)
  (pResponse : option (list byte)) (responseLength : nat)
  : result (nat * TwoWire * option (list byte)) :=
  let twi := beginTransmission twi address in
  match TwoWire_write twi [cmd] 1 with
  | Fault f => Fault f
  | Done twi =>
      match
        match pCmdData with
        | Some data => TwoWire_write twi data cmdLength
        | None => TwoWire_write twi [] 0
        end
      with
      | Fault f => Fault f
      | Done twi =>
          let isRequest := is_request pResponse in
          let (statusCode, twi) := endTransmission twi (negb isRequest) in
          match pResponse with
          | Some buffer =>
              if statusCode =? 0 then
                let (bytesRead, twi) := requestFrom twi address responseLength in
                match receive_loop bytesRead 0 responseLength twi buffer with
                | Fault f => Fault f
                | Done (twi, buffer) =>
                    Done (if 0 <? bytesRead then 0 else 4, twi, Some buffer)
                end
              else Done (statusCode, twi, pResponse)
          | None => Done (statusCode, twi, pResponse)
          end
      end
  end.

(** [I2C_SendCommand(twi, address, cmd)]. *)
Definition I2C_SendCommand_only (twi : TwoWire) (address : byte) (cmd : byte)
  : result (nat * TwoWire * option (list byte)) :=
  I2C_SendCommand twi address cmd None 0 None 0.

(** [I2C_SendRequest(twi, address, cmd, pResponse, responseLength)]. *)
Definition I2C_SendRequest (twi : TwoWire) (address : byte) (cmd : byte)
  (pResponse : option (list byte)) (responseLength : nat)
  : result (nat * TwoWire * option (list byte)) :=
  I2C_SendCommand twi address cmd None 0 pResponse responseLength.

(** [template <typename R> I2C_SendRequest(twi, address, cmd, R& responseData)];
    the buffer in the result is the object representation of [responseData]
    afterwards. *)
Definition I2C_SendRequest_R {R : Type} `{Repr R} (twi : TwoWire) (address : byte)
  (cmd : byte) (responseData : R)
  : result (nat * TwoWire * option (list byte)) :=
  I2C_SendCommand twi address cmd None 0 (Some (raw responseData)) sizeof.

(** [template <typename T, typename R>
    I2C_SendRequest(twi, address, cmd, const T& cmdData, R& responseData)]. *)
Definition I2C_SendRequest_T_R {T R : Type} `{Repr T} `{Repr R} (twi : TwoWire)
  (address : byte) (cmd : byte) (cmdData : T) (responseData : R)
  : result (nat * TwoWire * option (list byte)) :=
  I2C_SendCommand twi address cmd (Some (raw cmdData)) (sizeof (T := T))
    (Some (raw responseData)) (sizeof (T := R)).

End Bus.

(** A bus for the examples: the addressed device acknowledges the
    transmission ([acknowledging]) or not ([refusing], status 2), and answers
    a request with some of [answer]. *)
Definition addressing (twi : TwoWire) (address : byte) : TwoWire := twi.
Definition acknowledging (twi : TwoWire) (stop : bool) : nat * TwoWire := (0, twi).
Definition refusing (twi : TwoWire) (stop : bool) : nat * TwoWire := (2, twi).
Definition answering (answer : list byte) (twi : TwoWire) (address : byte)
  (quantity : nat) : nat * TwoWire :=
  (length (firstn quantity answer), {| rx := firstn quantity answer; tx := tx twi |}).

(** ** Frames through the listener *)

(** The response [r], posted to [this], is what the next [GetResponse]
    returns: both calls end, the struct read through the returned pointer is
    [r], and the command slot is as before. *)
Definition delivered_whole {EventSource T : Type}
  (this : CommandListener EventSource)
  (raw : T -> list byte) (overlay : list byte -> option T) (r : T) : Prop :=
  exists this1 log this2,
    PostResponse (Some (raw r)) this = Done (tt, this1, log) /\
    GetResponse this1 = Done (AtResponseBuffer, this2, []) /\
    overlay (response_at AtResponseBuffer this2) = Some r /\
    CommandBuffer this2 = CommandBuffer this /\
    CommandPending this2 = CommandPending this.

(** * Properties *)

(** ** Raw memory *)

Lemma strncpy_length (dst src : list byte) (n : nat) :
  n <= length dst -> length (strncpy dst src n) = length dst.
Proof.
  intros Hn. unfold strncpy.
  assert (Hs : length (firstn n (c_str src)) <= n) by apply firstn_le_length.
  rewrite !length_app, repeat_length, length_skipn. lia.
Qed.

Lemma memset_length (dst : list byte) (c : byte) (n : nat) :
  n <= length dst -> length (memset dst c n) = length dst.
Proof.
  intros Hn. unfold memset.
  rewrite length_app, repeat_length, length_skipn. lia.
Qed.

Lemma firstn_exact (A : Type) (l rest : list A) (n : nat) :
  length l = n -> firstn n (l ++ rest) = l.
Proof.
  intros <-. rewrite firstn_app, Nat.sub_diag, firstn_all. simpl.
  apply app_nil_r.
Qed.

Lemma skipn_exact (A : Type) (l rest : list A) (n : nat) :
  length l = n -> skipn n (l ++ rest) = rest.
Proof.
  intros <-. rewrite skipn_app, Nat.sub_diag, skipn_all. reflexivity.
Qed.

(** ** The codec *)

Lemma CommandExecute_CommandLine_length (a : byte) (s : list byte) :
  length (CommandExecute.CommandLine (CommandExecute.ctor a s)) =
  CommandExecute.sizeof_CommandLine.
Proof.
  simpl. rewrite strncpy_length; rewrite memset_length; reflexivity || (simpl; lia).
Qed.

Lemma CommandEcho_EchoData_length (s : list byte) :
  length (CommandEcho.EchoData (CommandEcho.ctor s)) = CommandEcho.sizeof_EchoData.
Proof.
  simpl. rewrite strncpy_length; rewrite memset_length; reflexivity || (simpl; lia).
Qed.

Lemma CommandExecute_overlay_raw (e : CommandExecute.t) (rest : list byte) :
  length (CommandExecute.CommandLine e) = CommandExecute.sizeof_CommandLine ->
  CommandExecute.overlay (CommandExecute.raw e ++ rest) = Some e.
Proof.
  intros Hlen. destruct e as [[l c] r line]. simpl in Hlen.
  unfold CommandExecute.overlay, CommandExecute.raw.
  cbn [CommandExecute.base CommandExecute.RequestorAddress CommandExecute.CommandLine
       CommandMessage.raw CommandMessage.overlay CommandMessage.sizeof app skipn Nat.add].
  rewrite (firstn_exact line rest Hlen), length_app, Hlen.
  reflexivity.
Qed.

Lemma CommandEcho_overlay_raw (e : CommandEcho.t) (rest : list byte) :
  length (CommandEcho.EchoData e) = CommandEcho.sizeof_EchoData ->
  CommandEcho.overlay (CommandEcho.raw e ++ rest) = Some e.
Proof.
  intros Hlen. destruct e as [[l c] data]. simpl in Hlen.
  unfold CommandEcho.overlay, CommandEcho.raw.
  cbn [CommandEcho.base CommandEcho.EchoData
       CommandMessage.raw CommandMessage.overlay CommandMessage.sizeof app skipn Nat.add].
  rewrite (firstn_exact data rest Hlen), length_app, Hlen.
  reflexivity.
Qed.

(** C3.  Every constructor of the protocol (CommandMessage, CommandExecute,
    CommandEcho, CommandQueryResponseReady, CommandResponse,
    CommandResponseQueryID, CommandResponseDeferred), for all its arguments,
    sets Length to the size of the struct it builds, and overlaying the
    struct on the raw bytes of the frame gives back the same field values. *)
Theorem constructors_stamp_Length_and_roundtrip :
  (forall commandCode,
      stamped_roundtrip CommandMessage.sizeof CommandMessage.Length
        CommandMessage.raw CommandMessage.overlay (CommandMessage.ctor commandCode)) /\
  (forall requestorAddr commandLine,
      stamped_roundtrip CommandExecute.sizeof CommandExecute.Length
        CommandExecute.raw CommandExecute.overlay
        (CommandExecute.ctor requestorAddr commandLine)) /\
  (forall echoData,
      stamped_roundtrip CommandEcho.sizeof CommandEcho.Length
        CommandEcho.raw CommandEcho.overlay (CommandEcho.ctor echoData)) /\
  (forall indeterminate responseID,
      stamped_roundtrip CommandQueryResponseReady.sizeof CommandQueryResponseReady.Length
        CommandQueryResponseReady.raw CommandQueryResponseReady.overlay
        (CommandQueryResponseReady.ctor indeterminate responseID)) /\
  (forall responseCode responseID,
      stamped_roundtrip CommandResponse.sizeof CommandResponse.Length
        CommandResponse.raw CommandResponse.overlay
        (CommandResponse.ctor responseCode responseID)) /\
  (forall id,
      stamped_roundtrip CommandResponseQueryID.sizeof CommandResponseQueryID.Length
        CommandResponseQueryID.raw CommandResponseQueryID.overlay
        (CommandResponseQueryID.ctor id)) /\
  (forall responseID,
      stamped_roundtrip CommandResponseDeferred.sizeof CommandResponseDeferred.Length
        CommandResponseDeferred.raw CommandResponseDeferred.overlay
        (CommandResponseDeferred.ctor responseID)).
Proof.
  unfold stamped_roundtrip.
  repeat split; try reflexivity.
  - unfold CommandExecute.raw. cbn [length CommandMessage.raw app].
    rewrite CommandExecute_CommandLine_length. reflexivity.
  - intros rest. apply CommandExecute_overlay_raw, CommandExecute_CommandLine_length.
  - unfold CommandEcho.raw. cbn [length CommandMessage.raw app].
    rewrite CommandEcho_EchoData_length. reflexivity.
  - intros rest. apply CommandEcho_overlay_raw, CommandEcho_EchoData_length.
Qed.

(** ** The monad of the listener's methods *)

Ltac run_method :=
  unfold bind, ret, get, modify, tell, lift; cbn beta iota.

Lemma bind_get (St B : Type) (k : St -> M St B) (s : St) :
  bind get k s = k s s.
Proof.
  unfold bind, get. destruct (k s s) as [[[b s2] log2] | f]; reflexivity.
Qed.

Lemma posts_app (l1 l2 : list call) :
  posts (l1 ++ l2) = false -> posts l1 = false /\ posts l2 = false.
Proof.
  unfold posts. rewrite existsb_app. apply orb_false_elim.
Qed.

Section Quiet.

Variable EventSource : Type.
Variable EventSource_Poll : EventSource -> EventSource.

Local Abbreviation Listener := (CommandListener EventSource).

Lemma quiet_ret (A : Type) (a : A) : quiet (ret a : M Listener A).
Proof.
  intros this a' this' log H _ Hp. inversion H; subst. exact Hp.
Qed.

Lemma quiet_get : quiet (get : M Listener Listener).
Proof.
  intros this a' this' log H _ Hp. inversion H; subst. exact Hp.
Qed.

Lemma quiet_lift (A : Type) (r : result A) : quiet (lift r : M Listener A).
Proof.
  intros this a' this' log H _ Hp. unfold lift in H.
  destruct r; inversion H; subst. exact Hp.
Qed.

Lemma quiet_tell (c : call) : quiet (tell c : M Listener unit).
Proof.
  intros this a' this' log H _ Hp. inversion H; subst. exact Hp.
Qed.

Lemma quiet_modify (f : Listener -> Listener) :
  (forall this, ResponsePending this = false -> ResponsePending (f this) = false) ->
  quiet (modify f).
Proof.
  intros Hf this a' this' log H _ Hp. inversion H; subst. auto.
Qed.

Lemma quiet_bind (A B : Type) (m : M Listener A) (k : A -> M Listener B) :
  quiet m -> (forall a, quiet (k a)) -> quiet (bind m k).
Proof.
  intros Hm Hk this b this' log H Hlog Hp. unfold bind in H.
  destruct (m this) as [[[a s1] log1] | f] eqn:Em; [ | discriminate ].
  destruct (k a s1) as [[[b' s2] log2] | f] eqn:Ek; [ | discriminate ].
  inversion H; subst. apply posts_app in Hlog as [Hl1 Hl2].
  eapply Hk; [ exact Ek | exact Hl2 | ].
  eapply Hm; eauto.
Qed.

(** [PostResponse] is quiet for the plain reason that it is a [PostResponse]. *)
Lemma quiet_PostResponse (pResponse : option (list byte)) :
  quiet (PostResponse (EventSource := EventSource) pResponse).
Proof.
  intros this a this' log H Hlog _. exfalso.
  unfold PostResponse, bind, tell in H.
  match type of H with
  | match ?body with _ => _ end = _ =>
      destruct body as [[[u s2] log2] | f]; [ | discriminate ]
  end.
  inversion H; subst. discriminate Hlog.
Qed.

Create HintDb quiet.

#[local] Hint Resolve quiet_ret quiet_get quiet_lift quiet_tell quiet_bind
  quiet_modify quiet_PostResponse : quiet.

Ltac quiet_steps :=
  repeat first
    [ apply quiet_ret | apply quiet_get | apply quiet_lift | apply quiet_tell
    | apply quiet_PostResponse
    | apply quiet_modify; solve [ auto ]
    | apply quiet_bind; [ | intros ? ]
    | match goal with
      | |- quiet (if ?c then _ else _) => destruct c
      | |- quiet (let '(_, _) := ?x in _) => destruct x as [[? ?] ?]
      end ].

Lemma quiet_DefaultCommandHandler (pCommand : CommandPtr) :
  quiet (DefaultCommandHandler (EventSource := EventSource) pCommand).
Proof.
  unfold DefaultCommandHandler. apply quiet_bind; [ apply quiet_get | ].
  intros this. destruct (Byte.eqb _ _); auto with quiet.
Qed.

Lemma quiet_base_class : quiet_overrides (CommandListener_vtable (EventSource := EventSource)).
Proof.
  split; [ apply quiet_ret | apply quiet_DefaultCommandHandler ].
Qed.

Variable vt : VTable EventSource.
Hypothesis vt_quiet : quiet_overrides vt.

Lemma quiet_GetResponse : quiet (GetResponse (EventSource := EventSource)).
Proof.
  unfold GetResponse. apply quiet_bind; [ apply quiet_get | ].
  intros this. destruct (ResponsePending this); auto with quiet.
Qed.

Lemma quiet_step (o : op) : quiet (step EventSource_Poll vt o).
Proof.
  destruct vt_quiet as [HBegin HCommand].
  destruct o; cbn [step];
    unfold Begin, Poll, OnEvent, SendResponse, OnCommandReceived, OnCommandReceived_twi;
    quiet_steps; auto using quiet_GetResponse.
Qed.

Lemma quiet_run (ops : list op) : quiet (run EventSource_Poll vt ops).
Proof.
  induction ops as [ | o rest IH ]; cbn [run].
  - apply quiet_ret.
  - apply quiet_bind; [ apply quiet_step | intros _; exact IH ].
Qed.

End Quiet.

(** ** The listener *)

Section ListenerProperties.

Variable EventSource : Type.
Variable EventSource_Poll : EventSource -> EventSource.

Local Abbreviation Listener := (CommandListener EventSource).

Lemma memcpy_inside (dst src : list byte) (n : nat) :
  n <= length dst -> n <= length src ->
  memcpy dst src n = Done (firstn n src ++ skipn n dst).
Proof.
  intros Hd Hs. unfold memcpy.
  destruct (Nat.ltb_spec (length dst) n); [ lia | ].
  destruct (Nat.ltb_spec (length src) n); [ lia | reflexivity ].
Qed.

Lemma memcpy_outside (dst src : list byte) (n : nat) :
  length dst < n -> memcpy dst src n = Fault (WritePastEnd (length dst) n).
Proof.
  intros Hd. unfold memcpy.
  destruct (Nat.ltb_spec (length dst) n); [ reflexivity | lia ].
Qed.

Lemma memcpy_keeps_size (dst src : list byte) (n : nat) :
  n <= length dst -> n <= length src ->
  length (firstn n src ++ skipn n dst) = length dst.
Proof.
  intros Hd Hs. rewrite length_app, length_firstn, length_skipn. lia.
Qed.

Lemma PostResponse_inside (response : list byte) (this : Listener) :
  Byte.to_nat (Length_at response) <= length (ResponseBuffer this) ->
  Byte.to_nat (Length_at response) <= length response ->
  PostResponse (Some response) this =
  Done (tt, posted response (Byte.to_nat (Length_at response)) this,
        [CallPostResponse (Some response)]).
Proof.
  intros Hd Hs. unfold PostResponse. run_method.
  rewrite (memcpy_inside _ _ Hd Hs). reflexivity.
Qed.

Lemma PostResponse_outside (response : list byte) (this : Listener) :
  length (ResponseBuffer this) < Byte.to_nat (Length_at response) ->
  PostResponse (Some response) this =
  Fault (WritePastEnd (length (ResponseBuffer this)) (Byte.to_nat (Length_at response))).
Proof.
  intros Hd. unfold PostResponse. run_method.
  rewrite (memcpy_outside _ _ Hd). reflexivity.
Qed.

Lemma GetResponse_eq (this : Listener) :
  GetResponse this =
  if ResponsePending this
  then Done (AtResponseBuffer, set_ResponsePending false this, [])
  else Done (AtResponseNotReady, this, []).
Proof.
  unfold GetResponse. run_method. destruct (ResponsePending this); reflexivity.
Qed.

Lemma GetResponse_clears (this this' : Listener) (p : ResponsePtr) (log : list call) :
  GetResponse this = Done (p, this', log) -> ResponsePending this' = false.
Proof.
  rewrite GetResponse_eq. destruct (ResponsePending this) eqn:E; intros H;
    inversion H; subst; [ reflexivity | exact E ].
Qed.

(** C1, as the code has it.  [PostResponse] and
    [OnCommandReceived(const CommandMessage* )] copy as many bytes as the
    frame's Length field declares and never compare that number with the
    capacity of the buffer.  For a frame that declares at most 32 bytes the
    copy lands whole inside the buffer, whose 32 bytes stay 32; for a frame
    that declares more the copy is still made, with that count, and leaves
    the buffer. *)
Theorem copies_take_the_declared_Length
  (vt : VTable EventSource) (this : Listener) (frame : list byte) :
  well_formed this ->
  Byte.to_nat (Length_at frame) <= length frame ->
  let n := Byte.to_nat (Length_at frame) in
  PostResponse (Some frame) this =
    (if n <=? BUFFER_SIZE
     then Done (tt, posted frame n this, [CallPostResponse (Some frame)])
     else Fault (WritePastEnd BUFFER_SIZE n)) /\
  (CommandPending this = false ->
   OnCommandReceived vt frame this =
     (if n <=? BUFFER_SIZE
      then Done (tt, captured frame n this, [])
      else Fault (WritePastEnd BUFFER_SIZE n))) /\
  (n <= BUFFER_SIZE ->
   well_formed (posted frame n this) /\ well_formed (captured frame n this)).
Proof.
  intros [HC HR] Hsrc n. repeat split.
  - destruct (Nat.leb_spec n BUFFER_SIZE) as [Hn | Hn].
    + apply PostResponse_inside; [ rewrite HR; exact Hn | exact Hsrc ].
    + rewrite <- HR. apply PostResponse_outside. rewrite HR. exact Hn.
  - intros Hidle. unfold OnCommandReceived. run_method. rewrite Hidle.
    cbn [set_CommandPending CommandBuffer].
    destruct (Nat.leb_spec n BUFFER_SIZE) as [Hn | Hn].
    + rewrite memcpy_inside; [ reflexivity | rewrite HC; exact Hn | exact Hsrc ].
    + rewrite memcpy_outside; [ rewrite HC; reflexivity | rewrite HC; exact Hn ].
  - exact HC.
  - cbn [posted set_ResponsePending set_ResponseBuffer ResponseBuffer].
    rewrite memcpy_keeps_size; [ exact HR | rewrite HR; assumption | exact Hsrc ].
  - cbn [captured set_CommandPending set_CommandBuffer CommandBuffer].
    rewrite memcpy_keeps_size; [ exact HC | rewrite HC; assumption | exact Hsrc ].
  - exact HR.
Qed.

(** C2.  [GetResponse] with a response pending returns the pointer to
    [ResponseBuffer], where the last [PostResponse] stored its frame, and
    clears [ResponsePending]; with none pending it returns the static
    NOT_READY response (code 0x02) and changes nothing.  Hence after a
    [GetResponse], whatever calls follow, as long as none of them is or makes
    a [PostResponse], the next [GetResponse] returns NOT_READY. *)
Theorem GetResponse_pending_else_not_ready
  (vt : VTable EventSource) (this : Listener) :
  (ResponsePending this = true ->
   GetResponse this = Done (AtResponseBuffer, set_ResponsePending false this, []) /\
   response_at AtResponseBuffer (set_ResponsePending false this) = ResponseBuffer this) /\
  (forall response,
      well_formed this ->
      Byte.to_nat (Length_at response) <= BUFFER_SIZE ->
      length response = Byte.to_nat (Length_at response) ->
      exists this1 log this2,
        PostResponse (Some response) this = Done (tt, this1, log) /\
        GetResponse this1 = Done (AtResponseBuffer, this2, []) /\
        ResponsePending this2 = false /\
        firstn (length response) (response_at AtResponseBuffer this2) = response) /\
  (ResponsePending this = false ->
   GetResponse this = Done (AtResponseNotReady, this, []) /\
   CommandResponse.overlay (response_at AtResponseNotReady this) =
     Some (CommandResponse.ctor CMD_RESPONSE_NOTREADY x00) /\
   ResponseCode_at (response_at AtResponseNotReady this) = x02) /\
  (forall ops p1 this1 log1 this2 log2,
      quiet_overrides vt ->
      GetResponse this = Done (p1, this1, log1) ->
      run EventSource_Poll vt ops this1 = Done (tt, this2, log2) ->
      posts log2 = false ->
      GetResponse this2 = Done (AtResponseNotReady, this2, [])).
Proof.
  repeat split.
  - rewrite GetResponse_eq, H. reflexivity.
  - intros response [HC HR] Hfit Hlen.
    eexists _, _, _. split; [ | split; [ | split ] ].
    + apply PostResponse_inside; rewrite ?HR, ?Hlen; auto.
    + rewrite GetResponse_eq. reflexivity.
    + reflexivity.
    + cbn [response_at posted set_ResponsePending set_ResponseBuffer ResponseBuffer].
      rewrite <- Hlen, firstn_all. apply firstn_exact. reflexivity.
  - rewrite GetResponse_eq, H. reflexivity.
  - intros ops p1 this1 log1 this2 log2 Hvt Hget Hrun Hlog.
    rewrite GetResponse_eq.
    pose proof (@quiet_run _ EventSource_Poll vt Hvt ops) as Hq.
    rewrite (Hq _ _ _ _ Hrun Hlog (GetResponse_clears _ Hget)).
    reflexivity.
Qed.

Lemma flush_nil (waiting : list byte) : flush waiting = [].
Proof.
  induction waiting as [ | b rest IH ]; [ reflexivity | exact IH ].
Qed.

Lemma DefaultCommandHandler_other (pCommand : CommandPtr) (this : Listener) :
  CommandCode_at (command_at pCommand this) <> CMD_QUERY_ID ->
  DefaultCommandHandler pCommand this = Done (tt, this, []).
Proof.
  intros Hcode. unfold DefaultCommandHandler. run_method.
  destruct (Byte.eqb _ CMD_QUERY_ID) eqn:E; [ | reflexivity ].
  apply Byte.byte_dec_bl in E. contradiction.
Qed.

Lemma DefaultCommandHandler_query_id (pCommand : CommandPtr) (this : Listener) :
  well_formed this ->
  CommandCode_at (command_at pCommand this) = CMD_QUERY_ID ->
  let response := CommandResponseQueryID.raw (CommandResponseQueryID.ctor (_myDeviceID this)) in
  DefaultCommandHandler pCommand this =
  Done (tt, posted response CommandResponseQueryID.sizeof this,
        [CallPostResponse (Some response)]).
Proof.
  intros [_ HR] Hcode response. unfold DefaultCommandHandler.
  rewrite bind_get, Hcode, (Byte.byte_dec_lb (eq_refl CMD_QUERY_ID)).
  apply PostResponse_inside; [ rewrite HR | ]; vm_compute; lia.
Qed.

(** The base class's handler ends without a fault and dispatches nothing
    itself. *)
Lemma DefaultCommandHandler_total (pCommand : CommandPtr) (this : Listener) :
  well_formed this ->
  exists this1 log,
    DefaultCommandHandler pCommand this = Done (tt, this1, log) /\
    dispatches log = [].
Proof.
  intros Hwf.
  destruct (Byte.byte_eq_dec (CommandCode_at (command_at pCommand this)) CMD_QUERY_ID)
    as [Hcode | Hcode].
  - eexists _, _. split; [ apply DefaultCommandHandler_query_id; assumption | ].
    reflexivity.
  - eexists _, _. split; [ apply DefaultCommandHandler_other; assumption | ].
    reflexivity.
Qed.

Lemma Poll_pending (vt : VTable EventSource) (this this1 : Listener) (log : list call) :
  CommandPending this = true ->
  vOnCommand vt AtCommandBuffer this = Done (tt, this1, log) ->
  Poll EventSource_Poll vt this =
  Done (tt, set_base (EventSource_Poll (base this1)) (set_CommandPending false this1),
        CallOnCommand AtCommandBuffer :: log).
Proof.
  intros Hpending Hhandler. unfold Poll. run_method.
  rewrite Hpending, Hhandler. cbn [app]. rewrite !app_nil_r. reflexivity.
Qed.

Lemma Poll_idle (vt : VTable EventSource) (this : Listener) :
  CommandPending this = false ->
  Poll EventSource_Poll vt this =
  Done (tt, set_base (EventSource_Poll (base this)) this, []).
Proof.
  intros Hidle. unfold Poll. run_method. rewrite Hidle. reflexivity.
Qed.

(** C4.  A listener whose device ID is 7 holds a captured CMD_QUERY_ID
    command (code 0x01, [CommandPending] set).  One [Poll] ends, and the
    [GetResponse] after it returns a CommandResponseQueryID of Length 4 with
    responseCode OK (0x00), responseID 0 and ID 7. *)
Theorem query_id_answered_with_device_id (this : Listener) :
  well_formed this ->
  _myDeviceID this = x07 ->
  CommandPending this = true ->
  CommandCode_at (CommandBuffer this) = CMD_QUERY_ID ->
  exists this1 log this2 response,
    Poll EventSource_Poll CommandListener_vtable this = Done (tt, this1, log) /\
    GetResponse this1 = Done (AtResponseBuffer, this2, []) /\
    CommandResponseQueryID.overlay (response_at AtResponseBuffer this2) = Some response /\
    response = CommandResponseQueryID.ctor x07 /\
    CommandResponse.ResponseCode (CommandResponseQueryID.base response) = CMD_RESPONSE_OK /\
    CommandResponse.ResponseID (CommandResponseQueryID.base response) = x00 /\
    CommandResponseQueryID.ID response = x07.
Proof.
  intros Hwf Hid Hpending Hcode.
  eexists _, _, _, _. split; [ | split; [ | split; [ | split ] ] ].
  - apply Poll_pending; [ exact Hpending | ].
    cbn [vOnCommand CommandListener_vtable]. unfold OnCommand.
    apply DefaultCommandHandler_query_id; assumption.
  - rewrite GetResponse_eq. reflexivity.
  - rewrite Hid. reflexivity.
  - reflexivity.
  - repeat split.
Qed.


(** C6.  With a command pending, [Poll] calls the handler [OnCommand] on the
    command in [CommandBuffer], once, and clears [CommandPending]: whatever
    the handler of the device class is, if it ends in a state then [Poll]
    ends in that state with [CommandPending] cleared and the event source
    polled, its calls are that one dispatch followed by the handler's own,
    and a fault of the handler is the fault of [Poll].  With the base class's
    handler [Poll] always ends: a CMD_QUERY_ID command has its response
    posted, any other command changes nothing but the flag.  With no command
    pending, [Poll] calls no handler and only polls the event source:
    [CommandPending] and [CommandBuffer] are as they were. *)
Theorem Poll_dispatches_pending_command_once
  (vt : VTable EventSource) (this : Listener) :
  (CommandPending this = true ->
   (forall this1 log,
       vOnCommand vt AtCommandBuffer this = Done (tt, this1, log) ->
       Poll EventSource_Poll vt this =
         Done (tt,
               set_base (EventSource_Poll (base this1)) (set_CommandPending false this1),
               CallOnCommand AtCommandBuffer :: log) /\
       CommandPending
         (set_base (EventSource_Poll (base this1)) (set_CommandPending false this1)) = false /\
       (dispatches log = [] ->
        dispatches (CallOnCommand AtCommandBuffer :: log) =
          [CallOnCommand AtCommandBuffer])) /\
   (forall f,
       vOnCommand vt AtCommandBuffer this = Fault f ->
       Poll EventSource_Poll vt this = Fault f) /\
   (well_formed this ->
    let response :=
      CommandResponseQueryID.raw (CommandResponseQueryID.ctor (_myDeviceID this)) in
    let query := Byte.eqb (CommandCode_at (CommandBuffer this)) CMD_QUERY_ID in
    let handled :=
      if query then posted response CommandResponseQueryID.sizeof this else this in
    let log := if query then [CallPostResponse (Some response)] else [] in
    Poll EventSource_Poll CommandListener_vtable this =
      Done (tt,
            set_base (EventSource_Poll (base this)) (set_CommandPending false handled),
            CallOnCommand AtCommandBuffer :: log) /\
    dispatches (CallOnCommand AtCommandBuffer :: log) =
      [CallOnCommand AtCommandBuffer])) /\
  (CommandPending this = false ->
   Poll EventSource_Poll vt this =
     Done (tt, set_base (EventSource_Poll (base this)) this, []) /\
   CommandPending (set_base (EventSource_Poll (base this)) this) = false /\
   CommandBuffer (set_base (EventSource_Poll (base this)) this) = CommandBuffer this).
Proof.
  split.
  - intros Hpending. split; [ | split ].
    + intros this1 log Hhandler. split; [ | split ].
      * apply Poll_pending; assumption.
      * reflexivity.
      * intros Hlog. unfold dispatches in *. cbn [filter is_OnCommand].
        rewrite Hlog. reflexivity.
    + intros f Hfault. unfold Poll. run_method. rewrite Hpending, Hfault. reflexivity.
    + intros Hwf response query handled log.
      assert (Hhandler : DefaultCommandHandler AtCommandBuffer this =
                         Done (tt, handled, log)).
      { subst handled log query response.
        destruct (Byte.eqb (CommandCode_at (CommandBuffer this)) CMD_QUERY_ID) eqn:E.
        - apply DefaultCommandHandler_query_id; [ exact Hwf | ].
          apply Byte.byte_dec_bl. exact E.
        - apply DefaultCommandHandler_other. apply Byte.eqb_false. exact E. }
      split.
      * rewrite (@Poll_pending CommandListener_vtable this handled log Hpending Hhandler).
        subst handled query. destruct (Byte.eqb _ _); reflexivity.
      * subst log. destruct query; reflexivity.
  - intros Hidle. split; [ apply Poll_idle; exact Hidle | ].
    split; [ exact Hidle | reflexivity ].
Qed.

(** C8.  [DefaultCommandHandler] on a command whose code is not CMD_QUERY_ID
    (0x01) ends with the listener exactly as it was, [ResponsePending] and
    [ResponseBuffer] included, and without a call of [PostResponse]. *)
Theorem unrecognized_command_posts_no_response
  (pCommand : CommandPtr) (this : Listener) :
  CommandCode_at (command_at pCommand this) <> CMD_QUERY_ID ->
  exists this1 log,
    DefaultCommandHandler pCommand this = Done (tt, this1, log) /\
    this1 = this /\
    ResponsePending this1 = ResponsePending this /\
    ResponseBuffer this1 = ResponseBuffer this /\
    posts log = false.
Proof.
  intros Hcode. eexists _, _. split.
  - apply DefaultCommandHandler_other. exact Hcode.
  - repeat split.
Qed.

(** C10.  The base class's [SendResponse] hands the port the three bytes of
    a fresh CommandResponse with responseCode UNKNOWN (0x05) and responseID 0,
    whatever [ResponsePending] and [ResponseBuffer] hold, and leaves the
    listener as it was. *)
Theorem SendResponse_writes_UNKNOWN (twi : TwoWire) (this : Listener) :
  SendResponse twi this =
    Done ({| rx := rx twi; tx := tx twi ++ [x03; x05; x00] |}, this, []) /\
  [x03; x05; x00] = CommandResponse.raw (CommandResponse.ctor CMD_RESPONSE_UNKNOWN x00) /\
  CommandResponse.overlay [x03; x05; x00] =
    Some {| CommandResponse.Length := x03;
            CommandResponse.ResponseCode := x05;
            CommandResponse.ResponseID := x00 |}.
Proof.
  repeat split.
Qed.

End ListenerProperties.

(** ** The typed reads and writes of RTL_I2C.h *)

Lemma uint16_small (n : nat) : n < uint16_range -> uint16 n = n.
Proof.
  intros Hn. unfold uint16. apply Nat.mod_small. exact Hn.
Qed.

Lemma firstn_store (d : list byte) (i : nat) (b : byte) :
  i < length d -> firstn (S i) (store d i b) = firstn i d ++ [b].
Proof.
  intros Hi. unfold store.
  rewrite firstn_app, length_firstn, Nat.min_l by lia.
  rewrite firstn_firstn, Nat.min_r by lia.
  replace (S i - i) with 1 by lia. reflexivity.
Qed.

Lemma skipn_store (d : list byte) (i m : nat) (b : byte) :
  i < length d -> skipn (S i + m) (store d i b) = skipn (S i + m) d.
Proof.
  intros Hi. unfold store.
  rewrite skipn_app, length_firstn, Nat.min_l by lia.
  rewrite (skipn_all2 (firstn i d)) by (rewrite length_firstn; lia).
  replace (S i + m - i) with (S m) by lia.
  change (skipn (S m) (b :: skipn (S i) d)) with (skipn m (skipn (S i) d)).
  rewrite skipn_skipn. cbn [app]. f_equal. lia.
Qed.

Lemma store_length (d : list byte) (i : nat) (b : byte) :
  i < length d -> length (store d i b) = length d.
Proof.
  intros Hi. unfold store.
  rewrite length_app, length_firstn. cbn [length]. rewrite length_skipn. lia.
Qed.

(** The read loop, entered with [bytesRead = i], takes
    [min (sizeDest - i) (bytes waiting)] bytes and stores them from index
    [i] on. *)
Lemma I2C_Read_loop_eq (waiting : list byte) :
  forall (d : list byte) (sizeDest i : nat),
    i <= sizeDest -> sizeDest <= length d -> sizeDest < uint16_range ->
    I2C_Read_loop waiting d sizeDest i =
    Done (i + Nat.min (sizeDest - i) (length waiting),
          skipn (Nat.min (sizeDest - i) (length waiting)) waiting,
          firstn i d ++ firstn (Nat.min (sizeDest - i) (length waiting)) waiting
            ++ skipn (i + Nat.min (sizeDest - i) (length waiting)) d).
Proof.
  induction waiting as [ | b rest IH ]; intros d sizeDest i Hi Hd Hrange.
  - cbn [I2C_Read_loop length]. rewrite Nat.min_0_r, Nat.add_0_r.
    cbn [skipn firstn app]. rewrite firstn_skipn. reflexivity.
  - cbn [I2C_Read_loop]. destruct (Nat.ltb_spec i sizeDest) as [Hlt | Hge].
    + destruct (Nat.ltb_spec i (length d)) as [_ | Hout]; [ | lia ].
      rewrite uint16_small by lia.
      rewrite IH by (rewrite ?store_length; lia).
      cbn [length].
      replace (Nat.min (sizeDest - i) (S (length rest)))
        with (S (Nat.min (sizeDest - S i) (length rest))) by lia.
      set (m := Nat.min (sizeDest - S i) (length rest)).
      rewrite firstn_store, skipn_store by lia.
      cbn [skipn firstn]. rewrite <- app_assoc. cbn [app].
      replace (i + S m) with (S i + m) by lia. reflexivity.
    + replace (sizeDest - i) with 0 by lia. cbn [Nat.min].
      rewrite Nat.add_0_r. cbn [skipn firstn app]. rewrite firstn_skipn. reflexivity.
Qed.

Lemma I2C_Write_eq (T : Type) `{Repr T} (twi : TwoWire) (value : T) :
  I2C_Write twi value =
  Done (uint16 sizeof, {| rx := rx twi; tx := tx twi ++ raw value |}).
Proof.
  unfold I2C_Write, TwoWire_write. rewrite raw_length, Nat.ltb_irrefl.
  replace (firstn sizeof (raw value)) with (raw value); [ reflexivity | ].
  rewrite <- (raw_length value). symmetry. apply firstn_all.
Qed.

(** C9, as the code has it, for every type [T] whose size is in the range of
    the [uint16_t] counts.  [I2C_Write(twi, value)] hands the port the
    [sizeof(T)] bytes of [value] and returns [sizeof(T)].  The typed
    [I2C_Read(twi, value)] takes from the port as many bytes as wait there,
    up to [sizeof(T)], stores them at the start of [value] and returns their
    number: [sizeof(T)] bytes exactly when at least that many wait, fewer
    otherwise. *)
Theorem typed_codec_moves_up_to_sizeof_bytes
  (T : Type) `{Repr T} (twi : TwoWire) (value : T) :
  sizeof < uint16_range ->
  let k := Nat.min sizeof (TwoWire_available twi) in
  I2C_Write twi value =
    Done (sizeof, {| rx := rx twi; tx := tx twi ++ raw value |}) /\
  length (raw value) = sizeof /\
  I2C_Read_T twi value =
    Done (k, {| rx := skipn k (rx twi); tx := tx twi |},
          firstn k (rx twi) ++ skipn k (raw value)) /\
  length (firstn k (rx twi)) = k /\
  (sizeof <= TwoWire_available twi -> k = sizeof) /\
  (TwoWire_available twi < sizeof -> k = TwoWire_available twi).
Proof.
  intros Hrange k. unfold TwoWire_available in *.
  split; [ | split; [ | split; [ | split; [ | split ] ] ] ].
  - rewrite I2C_Write_eq, uint16_small by exact Hrange. reflexivity.
  - apply raw_length.
  - unfold I2C_Read_T, I2C_Read.
    rewrite I2C_Read_loop_eq by (rewrite ?raw_length; lia).
    rewrite Nat.sub_0_r. reflexivity.
  - rewrite length_firstn. lia.
  - lia.
  - lia.
Qed.

(** ** The deferred-response registry *)

Lemma allocate_full (fresh_part : list Registry.reference) (r : Registry.reference) :
  Registry.allocate (map Registry.taken fresh_part) r = None.
Proof.
  induction fresh_part as [ | p ps IH ]; cbn [map Registry.allocate]; [ reflexivity | ].
  cbn [Registry.inUse Registry.taken]. rewrite IH. reflexivity.
Qed.

Lemma allocate_first_free (ps : list Registry.reference) (m : nat)
  (r : Registry.reference) :
  Registry.allocate (map Registry.taken ps ++ repeat Registry.free (S m)) r =
  Some (map Registry.taken (ps ++ [r]) ++ repeat Registry.free m).
Proof.
  induction ps as [ | p ps IH ]; cbn [map app Registry.allocate repeat].
  - reflexivity.
  - cbn [Registry.inUse Registry.taken]. cbn [repeat] in IH. rewrite IH. reflexivity.
Qed.

(** Registering no more responses than slots are free takes the free slots
    in order, and every registration gives an ID. *)
Lemma register_all_takes_free_slots (fresh : list Registry.DeferredResponseEntry -> byte)
  (responses : list Registry.reference) :
  forall (ps : list Registry.reference) (m : nat),
    length responses <= m ->
    exists ids,
      Registry.register_all fresh
        (map Registry.taken ps ++ repeat Registry.free m) responses =
        (ids, map Registry.taken (ps ++ responses)
                ++ repeat Registry.free (m - length responses)) /\
      length ids = length responses /\
      Forall (fun id => id <> None) ids.
Proof.
  induction responses as [ | r rest IH ]; intros ps m Hm; cbn [length] in Hm.
  - exists []. rewrite app_nil_r, Nat.sub_0_r. repeat split. constructor.
  - destruct m as [ | m ]; [ lia | ].
    destruct (IH (ps ++ [r]) m ltac:(lia)) as (ids & Hrest & Hlen & Hsome).
    exists (Some (fresh (map Registry.taken ps ++ repeat Registry.free (S m))) :: ids).
    split; [ | split ].
    + cbn [Registry.register_all]. unfold Registry.Register.
      rewrite allocate_first_free, Hrest, <- app_assoc. reflexivity.
    + cbn [length]. rewrite Hlen. reflexivity.
    + constructor; [ discriminate | exact Hsome ].
Qed.


(** ** The properties at concrete listeners *)

(** [device7] is what the constructor and [Begin] make of zeroed memory. *)
Lemma device7_begun :
  Begin CommandListener_vtable
    (CommandListener_ctor
       {| base := tt; CommandBuffer := repeat x00 BUFFER_SIZE;
          ResponseBuffer := repeat x00 BUFFER_SIZE;
          CommandPending := false; ResponsePending := false; _myDeviceID := x00 |}
       x07) =
  Done (tt, device7, [CallOnBegin]).
Proof.
  reflexivity.
Qed.

(** Every frame that a constructor of the protocol builds fits the buffers. *)
Lemma protocol_frames_fit_the_buffers :
  Forall (fun size => size <= BUFFER_SIZE)
    [CommandMessage.sizeof; CommandExecute.sizeof; CommandEcho.sizeof;
     CommandQueryResponseReady.sizeof; CommandResponse.sizeof;
     CommandResponseQueryID.sizeof; CommandResponseDeferred.sizeof].
Proof.
  repeat constructor; vm_compute; lia.
Qed.

(** Against C1 as worded: a response frame of 33 bytes that declares its 33
    bytes is not turned away by [PostResponse], nor by the receive path; both
    go into [memcpy] with a count of 33 for a buffer of 32. *)
Lemma frame33_is_copied_not_rejected :
  well_formed device7 /\
  length frame33 = Byte.to_nat (Length_at frame33) /\
  BUFFER_SIZE < Byte.to_nat (Length_at frame33) /\
  PostResponse (Some frame33) device7 = Fault (WritePastEnd 32 33) /\
  OnCommandReceived CommandListener_vtable frame33 device7 =
    Fault (WritePastEnd 32 33).
Proof.
  repeat split. vm_compute. lia.
Qed.

Lemma copies_take_the_declared_Length_witness :
  let frame := CommandResponseQueryID.raw (CommandResponseQueryID.ctor x07) in
  well_formed device7 /\
  Byte.to_nat (Length_at frame) <= length frame /\
  PostResponse (Some frame) device7 =
    Done (tt, posted frame 4 device7, [CallPostResponse (Some frame)]).
Proof.
  intros frame.
  assert (Hwf : well_formed device7) by (split; reflexivity).
  assert (Hlen : Byte.to_nat (Length_at frame) <= length frame) by (vm_compute; lia).
  split; [ exact Hwf | split; [ exact Hlen | ] ].
  exact (proj1 (copies_take_the_declared_Length CommandListener_vtable frame Hwf Hlen)).
Defined.

Lemma GetResponse_pending_else_not_ready_witness :
  let ops := [Op_GetResponse; Op_SendResponse {| rx := []; tx := [] |};
              Op_OnCommandReceived [x02; x03]; Op_Poll; Op_GetResponse] in
  ResponsePending device7 = false /\
  GetResponse device7 = Done (AtResponseNotReady, device7, []) /\
  quiet_overrides (CommandListener_vtable (EventSource := unit)) /\
  exists this log,
    run (fun es => es) CommandListener_vtable ops device7 = Done (tt, this, log) /\
    posts log = false /\
    GetResponse this = Done (AtResponseNotReady, this, []).
Proof.
  intros ops.
  destruct (GetResponse_pending_else_not_ready (fun es => es)
              CommandListener_vtable device7) as (_ & _ & Hidle & Hnext).
  split; [ reflexivity | split; [ apply Hidle; reflexivity | ] ].
  split; [ apply quiet_base_class | ].
  eexists _, _. split; [ vm_compute; reflexivity | split; [ reflexivity | ] ].
  apply (Hnext ops AtResponseNotReady device7 [] _ _
           (quiet_base_class unit) eq_refl eq_refl eq_refl).
Defined.

Lemma query_id_answered_with_device_id_witness :
  well_formed device7_queried /\
  _myDeviceID device7_queried = x07 /\
  CommandPending device7_queried = true /\
  CommandCode_at (CommandBuffer device7_queried) = CMD_QUERY_ID /\
  exists this1 log this2 response,
    Poll (fun es => es) CommandListener_vtable device7_queried = Done (tt, this1, log) /\
    GetResponse this1 = Done (AtResponseBuffer, this2, []) /\
    CommandResponseQueryID.overlay (response_at AtResponseBuffer this2) = Some response /\
    response = CommandResponseQueryID.ctor x07 /\
    CommandResponse.ResponseCode (CommandResponseQueryID.base response) = CMD_RESPONSE_OK /\
    CommandResponse.ResponseID (CommandResponseQueryID.base response) = x00 /\
    CommandResponseQueryID.ID response = x07.
Proof.
  assert (Hwf : well_formed device7_queried) by (split; reflexivity).
  repeat (split; [ first [ exact Hwf | reflexivity ] | ]).
  exact (query_id_answered_with_device_id (fun es => es) Hwf eq_refl eq_refl eq_refl).
Defined.


Lemma Poll_dispatches_pending_command_once_witness :
  let response := CommandResponseQueryID.raw (CommandResponseQueryID.ctor x07) in
  CommandPending device7_queried = true /\
  well_formed device7_queried /\
  Poll (fun es => es) CommandListener_vtable device7_queried =
    Done (tt,
          set_base tt (set_CommandPending false
                         (posted response CommandResponseQueryID.sizeof device7_queried)),
          [CallOnCommand AtCommandBuffer; CallPostResponse (Some response)]) /\
  CommandPending device7 = false /\
  Poll (fun es => es) CommandListener_vtable device7 = Done (tt, set_base tt device7, []).
Proof.
  intros response.
  assert (Hwf : well_formed device7_queried) by (split; reflexivity).
  split; [ reflexivity | split; [ exact Hwf | split; [ | split; [ reflexivity | ] ] ] ].
  - exact (proj1 (proj2 (proj2 (proj1 (Poll_dispatches_pending_command_once
                                         (fun es => es) CommandListener_vtable
                                         device7_queried) eq_refl)) Hwf)).
  - exact (proj1 (proj2 (Poll_dispatches_pending_command_once (fun es => es)
                           CommandListener_vtable device7) eq_refl)).
Defined.


Lemma unrecognized_command_posts_no_response_witness :
  let pCommand := AtCommand (CommandMessage.raw (CommandMessage.ctor CMD_ECHO)) in
  CommandCode_at (command_at pCommand device7) <> CMD_QUERY_ID /\
  exists this1 log,
    DefaultCommandHandler pCommand device7 = Done (tt, this1, log) /\
    this1 = device7 /\
    ResponsePending this1 = ResponsePending device7 /\
    ResponseBuffer this1 = ResponseBuffer device7 /\
    posts log = false.
Proof.
  intros pCommand.
  assert (Hcode : CommandCode_at (command_at pCommand device7) <> CMD_QUERY_ID)
    by (vm_compute; discriminate).
  split; [ exact Hcode | ].
  exact (unrecognized_command_posts_no_response pCommand device7 Hcode).
Defined.

(** Against C9 as worded: with one byte waiting, the typed read of a two-byte
    CommandMessage takes one byte, not [sizeof(T)]; and for a type of 2^16
    bytes the count that [I2C_Write] returns is 0. *)
Lemma typed_read_takes_what_waits :
  sizeof (T := CommandMessage.t) = 2 /\
  I2C_Read_T {| rx := [x09]; tx := [] |} (CommandMessage.ctor CMD_QUERY_ID) =
    Done (1, {| rx := []; tx := [] |}, [x09; x01]) /\
  sizeof (T := array uint16_range) = uint16_range /\
  exists twi, I2C_Write {| rx := []; tx := [] |} (zeros uint16_range) = Done (0, twi).
Proof.
  repeat split. eexists. rewrite I2C_Write_eq. unfold uint16. cbn [sizeof Repr_array].
  rewrite Nat.Div0.mod_same. reflexivity.
Qed.

Lemma typed_codec_moves_up_to_sizeof_bytes_witness :
  let twi := {| rx := [x02; x06; x41]; tx := [] |} in
  let value := CommandMessage.ctor CMD_NONE in
  sizeof (T := CommandMessage.t) < uint16_range /\
  I2C_Write twi value = Done (2, {| rx := rx twi; tx := [x02; x00] |}) /\
  I2C_Read_T twi value = Done (2, {| rx := [x41]; tx := [] |}, [x02; x06]).
Proof.
  intros twi value.
  assert (Hrange : sizeof (T := CommandMessage.t) < uint16_range)
    by (apply Nat.ltb_lt; vm_compute; reflexivity).
  destruct (typed_codec_moves_up_to_sizeof_bytes twi value Hrange)
    as (Hwrite & _ & Hread & _).
  split; [ exact Hrange | split; [ exact Hwrite | exact Hread ] ].
Defined.

(** * Further properties *)

(** ** The text of CommandExecute and CommandEcho *)

Lemma c_str_no_NUL (p : list byte) : Forall (fun b => b <> x00) (c_str p).
Proof.
  induction p as [ | b p IH ]; cbn [c_str]; [ constructor | ].
  destruct (Byte.eqb b x00) eqn:E; constructor; [ | exact IH ].
  apply Byte.eqb_false. exact E.
Qed.

Lemma c_str_until_NUL (t rest : list byte) :
  Forall (fun b => b <> x00) t -> c_str (t ++ x00 :: rest) = t.
Proof.
  induction 1 as [ | b t Hb _ IH ]; cbn [c_str app]; [ reflexivity | ].
  destruct (Byte.eqb b x00) eqn:E.
  - apply Byte.byte_dec_bl in E. contradiction.
  - rewrite IH. reflexivity.
Qed.

Lemma Forall_firstn (A : Type) (P : A -> Prop) (n : nat) (l : list A) :
  Forall P l -> Forall P (firstn n l).
Proof.
  intros H. revert n. induction H as [ | a l Ha _ IH ]; intros [ | n ];
    cbn [firstn]; constructor; auto.
Qed.

(** What the two constructors store: at most 26 characters of the string,
    then NULs up to the 27 bytes of the array. *)
Lemma text_field_eq (s : list byte) :
  strncpy (memset (uninitialized 27) x00 27) s 26 =
  firstn 26 (c_str s) ++ x00 :: repeat x00 (26 - length (firstn 26 (c_str s))).
Proof.
  unfold strncpy. cbv zeta. f_equal.
  change (skipn 26 (memset (uninitialized 27) x00 27)) with [x00].
  generalize (26 - length (firstn 26 (c_str s))) as k.
  induction k as [ | k IH ]; [ reflexivity | ].
  cbn [repeat app]. rewrite IH. reflexivity.
Qed.

Lemma text_field_facts (s : list byte) :
  let field := strncpy (memset (uninitialized 27) x00 27) s 26 in
  length field = 27 /\
  skipn 26 field = [x00] /\
  c_str field = firstn 26 (c_str s) /\
  (length (c_str s) <= 26 -> c_str field = c_str s).
Proof.
  intros field. unfold field. rewrite text_field_eq.
  set (t := firstn 26 (c_str s)).
  assert (Ht : length t <= 26) by apply firstn_le_length.
  assert (Hc : c_str (t ++ x00 :: repeat x00 (26 - length t)) = t)
    by (apply c_str_until_NUL, Forall_firstn, c_str_no_NUL).
  split; [ | split; [ | split ] ].
  - rewrite length_app. cbn [length]. rewrite repeat_length. lia.
  - change (x00 :: repeat x00 (26 - length t)) with (repeat x00 (S (26 - length t))).
    rewrite skipn_app, skipn_all2 by lia. cbn [app].
    replace (S (26 - length t)) with ((26 - length t) + 1) by lia.
    rewrite repeat_app, skipn_app, repeat_length, Nat.sub_diag.
    rewrite skipn_all2 by (rewrite repeat_length; lia). reflexivity.
  - exact Hc.
  - intros Hshort. rewrite Hc. unfold t. apply firstn_all2. exact Hshort.
Qed.

(** X1.  The command line of a CommandExecute and the echo data of a
    CommandEcho always fill their 27 bytes and end in a NUL; read as a C
    string they are the first 26 characters of the constructor's argument,
    so an argument of at most 26 characters is kept whole and a longer one is
    cut to 26. *)
Theorem text_fields_are_truncated_and_terminated
  (requestorAddr : byte) (text : list byte) :
  let line := CommandExecute.CommandLine (CommandExecute.ctor requestorAddr text) in
  let data := CommandEcho.EchoData (CommandEcho.ctor text) in
  (length line = 27 /\ skipn 26 line = [x00] /\
   c_str line = firstn 26 (c_str text)) /\
  (length data = 27 /\ skipn 26 data = [x00] /\
   c_str data = firstn 26 (c_str text)) /\
  (length (c_str text) <= 26 -> c_str line = c_str text /\ c_str data = c_str text).
Proof.
  intros line data.
  destruct (text_field_facts text) as (Hl & Hn & Hc & Hs).
  repeat split; try assumption; intros; apply Hs; assumption.
Qed.

(** ** Frames through the listener *)

Section FrameProperties.

Variable EventSource : Type.
Variable EventSource_Poll : EventSource -> EventSource.

Local Abbreviation Listener := (CommandListener EventSource).

Lemma PostResponse_frame (this : Listener) (frame : list byte) :
  well_formed this ->
  Byte.to_nat (Length_at frame) = length frame ->
  length frame <= BUFFER_SIZE ->
  PostResponse (Some frame) this =
    Done (tt, posted frame (length frame) this, [CallPostResponse (Some frame)]) /\
  ResponseBuffer (posted frame (length frame) this) =
    frame ++ skipn (length frame) (ResponseBuffer this).
Proof.
  intros [_ HR] Hlen Hfit. split.
  - rewrite <- Hlen. apply PostResponse_inside; rewrite Hlen, ?HR; auto.
  - cbn [posted set_ResponsePending set_ResponseBuffer ResponseBuffer].
    rewrite firstn_all. reflexivity.
Qed.

Ltac deliver_whole Hwf :=
  match goal with
  | |- delivered_whole ?this ?raw _ ?r =>
      let H := fresh in
      destruct (@PostResponse_frame this (raw r) Hwf) as [H _];
      [ reflexivity | vm_compute; lia
      | eexists _, _, _; split; [ exact H | split;
          [ rewrite GetResponse_eq; reflexivity | repeat split ] ] ]
  end.

(** X3.  A response built by any of the three response constructors and
    posted to the listener is what the next [GetResponse] delivers: both
    calls end without a fault and the struct read through the returned
    pointer has the fields of the response that was posted; the command slot
    is not touched. *)
Theorem constructed_responses_are_delivered_whole (this : Listener) :
  well_formed this ->
  (forall responseCode responseID,
      delivered_whole this CommandResponse.raw CommandResponse.overlay
        (CommandResponse.ctor responseCode responseID)) /\
  (forall id,
      delivered_whole this CommandResponseQueryID.raw CommandResponseQueryID.overlay
        (CommandResponseQueryID.ctor id)) /\
  (forall responseID,
      delivered_whole this CommandResponseDeferred.raw CommandResponseDeferred.overlay
        (CommandResponseDeferred.ctor responseID)).
Proof.
  intros Hwf. split; [ | split ]; intros; deliver_whole Hwf.
Qed.

End FrameProperties.

(** ** Sequences of listener calls *)

Section SequenceProperties.

Variable EventSource : Type.
Variable EventSource_Poll : EventSource -> EventSource.

Local Abbreviation Listener := (CommandListener EventSource).

(** X6.  [ResponseBuffer] holds one response.  When two responses are
    posted with no [GetResponse] between them, the [GetResponse] that follows
    delivers the second, and the one after it delivers NOT_READY: the first
    response is never delivered.  Of the first response the buffer keeps only
    the bytes beyond the length of the second. *)
Theorem second_response_replaces_the_first
  (this : Listener) (first second : list byte) :
  well_formed this ->
  Byte.to_nat (Length_at first) = length first -> length first <= BUFFER_SIZE ->
  Byte.to_nat (Length_at second) = length second -> length second <= BUFFER_SIZE ->
  exists this1 this2 this3,
    PostResponse (Some first) this = Done (tt, this1, [CallPostResponse (Some first)]) /\
    PostResponse (Some second) this1 = Done (tt, this2, [CallPostResponse (Some second)]) /\
    GetResponse this2 = Done (AtResponseBuffer, this3, []) /\
    response_at AtResponseBuffer this3 =
      second ++ skipn (length second) (first ++ skipn (length first) (ResponseBuffer this)) /\
    GetResponse this3 = Done (AtResponseNotReady, this3, []).
Proof.
  intros Hwf Hl1 Hf1 Hl2 Hf2.
  destruct (@PostResponse_frame _ this first Hwf Hl1 Hf1) as [Hpost1 Hbuf1].
  set (this1 := posted first (length first) this) in *.
  assert (Hwf1 : well_formed this1).
  { destruct Hwf as [HC HR]. split; [ exact HC | ].
    cbn [this1 posted set_ResponsePending set_ResponseBuffer ResponseBuffer].
    rewrite memcpy_keeps_size; [ exact HR | rewrite HR; exact Hf1 | apply le_n ]. }
  destruct (@PostResponse_frame _ this1 second Hwf1 Hl2 Hf2) as [Hpost2 Hbuf2].
  eexists _, _, _. split; [ exact Hpost1 | split; [ exact Hpost2 | ] ].
  split; [ rewrite GetResponse_eq; reflexivity | ].
  split; [ | rewrite GetResponse_eq; reflexivity ].
  cbn [response_at set_ResponsePending ResponseBuffer].
  rewrite Hbuf2, Hbuf1. reflexivity.
Qed.

(** X7.  [Begin] brings a listener in any state, the one the constructor
    leaves included, to the idle state: both flags are cleared and [OnBegin]
    is called once.  A command that was pending is dropped without a
    dispatch (the next [Poll], with any handler, makes no call) and a
    response that was pending is dropped without delivery (the next
    [GetResponse] returns NOT_READY); buffers and device ID stay. *)
Theorem Begin_makes_the_listener_idle (vt : VTable EventSource) (this : Listener) :
  exists this1,
    Begin CommandListener_vtable this = Done (tt, this1, [CallOnBegin]) /\
    CommandPending this1 = false /\
    ResponsePending this1 = false /\
    CommandBuffer this1 = CommandBuffer this /\
    ResponseBuffer this1 = ResponseBuffer this /\
    _myDeviceID this1 = _myDeviceID this /\
    base this1 = base this /\
    Poll EventSource_Poll vt this1 =
      Done (tt, set_base (EventSource_Poll (base this1)) this1, []) /\
    GetResponse this1 = Done (AtResponseNotReady, this1, []).
Proof.
  eexists. split; [ reflexivity | ]. repeat split.
Qed.

End SequenceProperties.

(** ** Writing a value and reading it back *)

(** X10.  The typed write and the typed read fit together, for every type
    whose size is in the [uint16_t] range: [I2C_Write] hands the port the
    bytes of [value] and returns their number, and a typed [I2C_Read] from a
    port in which exactly these bytes wait first fills its argument with the
    bytes of [value], returns [sizeof(T)] and leaves in the port what came
    after them. *)
Theorem typed_write_then_read_gives_the_value
  (T : Type) `{Repr T} (sender : TwoWire) (value other : T) (more : list byte) :
  sizeof < uint16_range ->
  exists sent,
    I2C_Write sender value =
      Done (sizeof, {| rx := rx sender; tx := tx sender ++ sent |}) /\
    sent = raw value /\
    forall receiver,
      rx receiver = sent ++ more ->
      I2C_Read_T receiver other =
        Done (sizeof, {| rx := more; tx := tx receiver |}, raw value).
Proof.
  intros Hrange. exists (raw value). split; [ | split; [ reflexivity | ] ].
  - rewrite I2C_Write_eq, uint16_small by exact Hrange. reflexivity.
  - intros receiver Hrx. unfold I2C_Read_T, I2C_Read.
    rewrite I2C_Read_loop_eq by (rewrite ?raw_length; lia).
    rewrite Nat.sub_0_r, Hrx, length_app, !raw_length.
    replace (Nat.min sizeof (sizeof + length more)) with sizeof by lia.
    rewrite (firstn_exact (raw value) more (raw_length value)).
    rewrite (skipn_exact (raw value) more (raw_length value)).
    rewrite (skipn_all2 (raw other)) by (rewrite raw_length; lia).
    cbn [firstn app]. rewrite app_nil_r. reflexivity.
Qed.

(** ** Messages, commands and requests *)

Section BusProperties.

Variable beginTransmission : TwoWire -> byte -> TwoWire.
Variable endTransmission : TwoWire -> bool -> nat * TwoWire.
Variable requestFrom : TwoWire -> byte -> nat -> nat * TwoWire.

(** The bytes stored by a receive loop that takes [k] bytes from a port in
    which [waiting] wait: [read] gives -1, stored as 0xFF, once the port is
    empty. *)
Lemma receive_loop_eq (turns : nat) :
  forall (i responseLength : nat) (waiting sent buffer : list byte),
    responseLength <= length buffer ->
    let k := Nat.min turns (responseLength - i) in
    receive_loop turns i responseLength {| rx := waiting; tx := sent |} buffer =
    Done ({| rx := skipn k waiting; tx := sent |},
          firstn i buffer
            ++ (firstn k waiting ++ repeat xff (k - length waiting))
            ++ skipn (i + k) buffer).
Proof.
  induction turns as [ | turns IH ]; intros i responseLength waiting sent buffer Hfit k.
  - cbn [receive_loop]. subst k. cbn [Nat.min skipn firstn repeat Nat.sub app].
    rewrite Nat.add_0_r, firstn_skipn. reflexivity.
  - cbn [receive_loop]. destruct (Nat.ltb_spec i responseLength) as [Hlt | Hge].
    + assert (Hk : k = S (Nat.min turns (responseLength - S i))) by (subst k; lia).
      rewrite Hk. set (k' := Nat.min turns (responseLength - S i)).
      destruct waiting as [ | b rest ]; cbn [read_uint8 TwoWire_read rx tx].
      * destruct (Nat.ltb_spec i (length buffer)) as [Hin | Hout]; [ | lia ].
        rewrite IH by (rewrite store_length; lia). fold k'.
        rewrite firstn_store, skipn_store by lia.
        cbn [skipn firstn length Nat.sub repeat app].
        rewrite skipn_nil, firstn_nil, Nat.sub_0_r, <- app_assoc.
        replace (i + S k') with (S i + k') by lia. reflexivity.
      * destruct (Nat.ltb_spec i (length buffer)) as [Hin | Hout]; [ | lia ].
        rewrite IH by (rewrite store_length; lia). fold k'.
        rewrite firstn_store, skipn_store by lia.
        cbn [skipn firstn length Nat.sub app].
        rewrite <- app_assoc.
        replace (i + S k') with (S i + k') by lia. reflexivity.
    + rewrite IH by exact Hfit.
      replace k with 0 by (subst k; lia).
      replace (Nat.min turns (responseLength - S i)) with 0 by lia.
      rewrite !Nat.add_0_r.
      change (firstn 0 waiting) with (@nil byte).
      change (skipn 0 waiting) with waiting.
      cbn [repeat Nat.sub app]. rewrite !firstn_skipn. reflexivity.
Qed.

Lemma TwoWire_write_inside (twi : TwoWire) (p : list byte) (n : nat) :
  n <= length p ->
  TwoWire_write twi p n = Done {| rx := rx twi; tx := tx twi ++ firstn n p |}.
Proof.
  intros Hn. unfold TwoWire_write.
  destruct (Nat.ltb_spec (length p) n); [ lia | reflexivity ].
Qed.

Lemma to_nat_uint8 (n : nat) : n <= 255 -> Byte.to_nat (uint8 n) = n.
Proof.
  intros Hn. unfold uint8. rewrite Nat.mod_small by lia.
  destruct (Byte.of_nat n) as [b | ] eqn:E.
  - apply Byte.to_of_nat. exact E.
  - apply Byte.of_nat_None_iff in E. lia.
Qed.

(** X11.  [I2C_SendMessage] passes a failure of the transmission on and
    asks for nothing: when [endTransmission] reports a status other than 0
    the function returns that status, makes no request to the device and
    leaves the response buffer as it was.  The transmission is ended without
    a stop exactly when a response buffer is given. *)
Theorem I2C_SendMessage_passes_failure_on
  (twi : TwoWire) (address : byte) (pMessage : list byte) (messageLength : byte)
  (pResponse : option (list byte)) (responseLength : byte)
  (statusCode : nat) (twi' : TwoWire) :
  Byte.to_nat messageLength <= length pMessage ->
  let started := beginTransmission twi address in
  endTransmission
    {| rx := rx started;
       tx := tx started ++ firstn (Byte.to_nat messageLength) pMessage |}
    (negb (is_request pResponse)) = (statusCode, twi') ->
  statusCode <> 0 ->
  I2C_SendMessage beginTransmission endTransmission requestFrom
    twi address pMessage messageLength pResponse responseLength =
  Done (statusCode, twi', pResponse).
Proof.
  intros Hlen started Hend Hfail. unfold I2C_SendMessage. cbv zeta. fold started.
  rewrite (TwoWire_write_inside started pMessage Hlen), Hend.
  destruct pResponse as [buffer | ]; [ | reflexivity ].
  destruct (Nat.eqb_spec statusCode 0); [ contradiction | reflexivity ].
Qed.

Lemma I2C_SendMessage_answered
  (twi : TwoWire) (address : byte) (pMessage : list byte) (messageLength : byte)
  (buffer : list byte) (responseLength : byte)
  (ended : TwoWire) (bytesRead : nat) (answered : TwoWire) :
  Byte.to_nat messageLength <= length pMessage ->
  Byte.to_nat responseLength <= length buffer ->
  endTransmission
    {| rx := rx (beginTransmission twi address);
       tx := tx (beginTransmission twi address)
               ++ firstn (Byte.to_nat messageLength) pMessage |}
    false = (0, ended) ->
  requestFrom ended address (Byte.to_nat responseLength) = (bytesRead, answered) ->
  I2C_SendMessage beginTransmission endTransmission requestFrom
    twi address pMessage messageLength (Some buffer) responseLength =
    Done (if 0 <? bytesRead then 0 else 4,
          {| rx := skipn (Nat.min bytesRead (Byte.to_nat responseLength)) (rx answered);
             tx := tx answered |},
          Some ((firstn (Nat.min bytesRead (Byte.to_nat responseLength)) (rx answered)
                   ++ repeat xff (Nat.min bytesRead (Byte.to_nat responseLength)
                                  - length (rx answered)))
                  ++ skipn (Nat.min bytesRead (Byte.to_nat responseLength)) buffer)).
Proof.
  intros Hlen Hfit Hend Hrequest. unfold I2C_SendMessage. cbv zeta.
  rewrite (TwoWire_write_inside (beginTransmission twi address) pMessage Hlen).
  cbn [is_request negb]. rewrite Hend. cbn [Nat.eqb]. rewrite Hrequest.
  destruct answered as [waiting sent].
  rewrite receive_loop_eq by exact Hfit.
  rewrite Nat.sub_0_r. reflexivity.
Qed.

(** X12.  The response of [I2C_SendMessage] is never longer than asked
    for.  After a transmission that succeeded, with a response buffer of at
    least [responseLength] bytes, the function stores
    [min(bytesRead, responseLength)] bytes at the start of the buffer, where
    [bytesRead] is what [requestFrom] reports, and leaves the rest of the
    buffer as it was; bytes that the port holds beyond them stay in the port,
    and a place for which no byte waits gets 0xFF.  The status is 0 when
    [requestFrom] reports at least one byte and 4 when it reports none. *)
Theorem I2C_SendMessage_response_is_bounded
  (twi : TwoWire) (address : byte) (pMessage : list byte) (messageLength : byte)
  (buffer : list byte) (responseLength : byte)
  (ended : TwoWire) (bytesRead : nat) (answered : TwoWire) :
  Byte.to_nat messageLength <= length pMessage ->
  Byte.to_nat responseLength <= length buffer ->
  let started := beginTransmission twi address in
  endTransmission
    {| rx := rx started;
       tx := tx started ++ firstn (Byte.to_nat messageLength) pMessage |}
    false = (0, ended) ->
  requestFrom ended address (Byte.to_nat responseLength) = (bytesRead, answered) ->
  let k := Nat.min bytesRead (Byte.to_nat responseLength) in
  let received := firstn k (rx answered) ++ repeat xff (k - length (rx answered)) in
  I2C_SendMessage beginTransmission endTransmission requestFrom
    twi address pMessage messageLength (Some buffer) responseLength =
    Done (if 0 <? bytesRead then 0 else 4,
          {| rx := skipn k (rx answered); tx := tx answered |},
          Some (received ++ skipn k buffer)) /\
  length received = k /\
  length (received ++ skipn k buffer) = length buffer.
Proof.
  intros Hlen Hfit started Hend Hrequest k received.
  assert (Hreceived : length received = k).
  { unfold received. rewrite length_app, length_firstn, repeat_length. lia. }
  split; [ | split; [ exact Hreceived | ] ].
  - exact (@I2C_SendMessage_answered twi address pMessage messageLength buffer
             responseLength ended bytesRead answered Hlen Hfit Hend Hrequest).
  - rewrite length_app, Hreceived, length_skipn. unfold k. lia.
Qed.

(** X13.  Without a response buffer the variants of [I2C_SendMessage] do
    the same: the six-argument function called with a [NULL] response
    pointer behaves as the four-argument one, whatever response length is
    passed; and the typed function, for a message type of at most 255 bytes,
    behaves as the four-argument one on the bytes of its message, whose
    number then fits the [uint8_t] length of that function. *)
Theorem I2C_SendMessage_variants_agree
  (T : Type) `{Repr T} (twi : TwoWire) (address : byte)
  (pMessage : list byte) (messageLength responseLength : byte) (message : T) :
  sizeof <= 255 ->
  I2C_SendMessage beginTransmission endTransmission requestFrom
    twi address pMessage messageLength None responseLength =
    match I2C_SendMessage_only beginTransmission endTransmission
            twi address pMessage messageLength with
    | Done (statusCode, twi') => Done (statusCode, twi', None)
    | Fault f => Fault f
    end /\
  I2C_SendMessage_T beginTransmission endTransmission twi address message =
    I2C_SendMessage_only beginTransmission endTransmission
      twi address (raw message) (uint8 sizeof).
Proof.
  intros Hsmall. split.
  - unfold I2C_SendMessage, I2C_SendMessage_only. cbv zeta.
    destruct (TwoWire_write _ _ _) as [written | f]; [ | reflexivity ].
    cbn [is_request negb]. destruct (endTransmission written true). reflexivity.
  - unfold I2C_SendMessage_T, I2C_SendMessage_only. cbv zeta.
    rewrite (to_nat_uint8 Hsmall). reflexivity.
Qed.

(** X14.  A command is a message that begins with the command code, as
    long as the lengths fit the [uint8_t] parameters of [I2C_SendMessage]:
    for a response length of at most 255, [I2C_SendCommand] with at most 254
    bytes of command data behaves as [I2C_SendMessage] on the command byte
    followed by the data, and [I2C_SendCommand] without data and
    [I2C_SendRequest] behave as [I2C_SendMessage] on the command byte alone;
    so does the three-argument [I2C_SendCommand]. *)
Theorem I2C_SendCommand_is_a_message_led_by_the_code
  (twi : TwoWire) (address cmd : byte) (data : list byte) (cmdLength : nat)
  (pResponse : option (list byte)) (responseLength : nat) :
  cmdLength <= length data ->
  cmdLength <= 254 ->
  responseLength <= 255 ->
  I2C_SendCommand beginTransmission endTransmission requestFrom
    twi address cmd (Some data) cmdLength pResponse responseLength =
    I2C_SendMessage beginTransmission endTransmission requestFrom
      twi address (cmd :: data) (uint8 (S cmdLength)) pResponse (uint8 responseLength) /\
  I2C_SendCommand beginTransmission endTransmission requestFrom
    twi address cmd None cmdLength pResponse responseLength =
    I2C_SendMessage beginTransmission endTransmission requestFrom
      twi address [cmd] x01 pResponse (uint8 responseLength) /\
  I2C_SendRequest beginTransmission endTransmission requestFrom
    twi address cmd pResponse responseLength =
    I2C_SendMessage beginTransmission endTransmission requestFrom
      twi address [cmd] x01 pResponse (uint8 responseLength) /\
  I2C_SendCommand_only beginTransmission endTransmission requestFrom
    twi address cmd =
    I2C_SendMessage beginTransmission endTransmission requestFrom
      twi address [cmd] x01 None x00.
Proof.
  intros Hlen Hcmd Hresponse.
  assert (Hnone : forall c p,
             I2C_SendCommand beginTransmission endTransmission requestFrom
               twi address cmd None c p responseLength =
             I2C_SendMessage beginTransmission endTransmission requestFrom
               twi address [cmd] x01 p (uint8 responseLength)).
  { intros c p. unfold I2C_SendCommand, I2C_SendMessage. cbv zeta.
    rewrite (to_nat_uint8 Hresponse).
    change (Byte.to_nat x01) with 1.
    cbn [TwoWire_write length Nat.ltb Nat.leb firstn rx tx]. rewrite app_nil_r.
    reflexivity. }
  split; [ | split; [ apply Hnone | split; [ apply Hnone | ] ] ].
  - unfold I2C_SendCommand, I2C_SendMessage. cbv zeta.
    rewrite (to_nat_uint8 Hresponse), to_nat_uint8 by lia.
    set (started := beginTransmission twi address).
    rewrite (@TwoWire_write_inside started [cmd] 1) by (cbn [length]; lia).
    rewrite TwoWire_write_inside by exact Hlen.
    rewrite (@TwoWire_write_inside started (cmd :: data) (S cmdLength))
      by (cbn [length]; lia).
    cbn [rx tx firstn]. rewrite <- app_assoc. reflexivity.
  - unfold I2C_SendCommand_only, I2C_SendCommand, I2C_SendMessage. cbv zeta.
    change (Byte.to_nat x01) with 1. change (Byte.to_nat x00) with 0.
    cbn [TwoWire_write length Nat.ltb Nat.leb firstn rx tx]. rewrite app_nil_r.
    reflexivity.
Qed.

Lemma I2C_SendCommand_answered
  (twi : TwoWire) (address cmd : byte) (buffer : list byte) (responseLength : nat)
  (ended : TwoWire) (bytesRead : nat) (answered : TwoWire) :
  responseLength <= length buffer ->
  endTransmission
    {| rx := rx (beginTransmission twi address);
       tx := tx (beginTransmission twi address) ++ [cmd] |}
    false = (0, ended) ->
  requestFrom ended address responseLength = (bytesRead, answered) ->
  I2C_SendCommand beginTransmission endTransmission requestFrom
    twi address cmd None 0 (Some buffer) responseLength =
    Done (if 0 <? bytesRead then 0 else 4,
          {| rx := skipn (Nat.min bytesRead responseLength) (rx answered);
             tx := tx answered |},
          Some ((firstn (Nat.min bytesRead responseLength) (rx answered)
                   ++ repeat xff (Nat.min bytesRead responseLength - length (rx answered)))
                  ++ skipn (Nat.min bytesRead responseLength) buffer)).
Proof.
  intros Hfit Hend Hrequest. unfold I2C_SendCommand.
  cbn [TwoWire_write length Nat.ltb Nat.leb firstn rx tx]. rewrite app_nil_r.
  cbn [is_request negb]. rewrite Hend. cbn [Nat.eqb]. rewrite Hrequest.
  destruct answered as [waiting sent].
  rewrite receive_loop_eq by exact Hfit.
  rewrite Nat.sub_0_r. reflexivity.
Qed.

(** X15.  The typed [I2C_SendRequest] sends the command byte alone and,
    after a transmission that succeeded, asks for [sizeof(R)] bytes.  When
    the device delivers them all, the response object is filled with exactly
    the first [sizeof(R)] bytes that wait in the port and the status is 0;
    when [requestFrom] reports no byte, the status is 4 and the response
    object is left as it was. *)
Theorem typed_request_fills_the_response
  (R : Type) `{Repr R} (twi : TwoWire) (address cmd : byte) (responseData : R)
  (ended : TwoWire) (bytesRead : nat) (answered : TwoWire) :
  let started := beginTransmission twi address in
  endTransmission {| rx := rx started; tx := tx started ++ [cmd] |} false = (0, ended) ->
  requestFrom ended address sizeof = (bytesRead, answered) ->
  (0 < bytesRead -> sizeof <= bytesRead -> sizeof <= TwoWire_available answered ->
   I2C_SendRequest_R beginTransmission endTransmission requestFrom
     twi address cmd responseData =
     Done (0, {| rx := skipn sizeof (rx answered); tx := tx answered |},
           Some (firstn sizeof (rx answered)))) /\
  (bytesRead = 0 ->
   I2C_SendRequest_R beginTransmission endTransmission requestFrom
     twi address cmd responseData =
     Done (4, {| rx := rx answered; tx := tx answered |}, Some (raw responseData))).
Proof.
  intros started Hend Hrequest.
  assert (Hanswered := @I2C_SendCommand_answered twi address cmd
                         (raw responseData) sizeof ended bytesRead answered
                         ltac:(rewrite raw_length; apply le_n) Hend Hrequest).
  unfold I2C_SendRequest_R. rewrite Hanswered. unfold TwoWire_available.
  split.
  - intros Hsome Hall Hwait.
    replace (Nat.min bytesRead sizeof) with sizeof by lia.
    destruct (Nat.ltb_spec 0 bytesRead); [ | lia ].
    replace (sizeof - length (rx answered)) with 0 by lia.
    rewrite (skipn_all2 (raw responseData)) by (rewrite raw_length; lia).
    cbn [repeat]. rewrite !app_nil_r. reflexivity.
  - intros ->. reflexivity.
Qed.

End BusProperties.

(** ** The further properties at concrete inputs *)

Lemma text_fields_are_truncated_and_terminated_witness :
  let text := [x41; x42] in
  length (c_str text) <= 26 /\
  c_str (CommandExecute.CommandLine (CommandExecute.ctor x10 text)) = c_str text /\
  c_str (CommandEcho.EchoData (CommandEcho.ctor text)) = c_str text.
Proof.
  intros text.
  assert (Hshort : length (c_str text) <= 26) by (vm_compute; lia).
  split; [ exact Hshort | ].
  exact (proj2 (proj2 (text_fields_are_truncated_and_terminated x10 text)) Hshort).
Defined.

Lemma constructed_responses_are_delivered_whole_witness :
  well_formed device7_queried /\
  delivered_whole device7_queried
    CommandResponseDeferred.raw CommandResponseDeferred.overlay
    (CommandResponseDeferred.ctor x03).
Proof.
  assert (Hwf : well_formed device7_queried) by (split; reflexivity).
  split; [ exact Hwf | ].
  exact (proj2 (proj2 (@constructed_responses_are_delivered_whole unit
                         device7_queried Hwf)) x03).
Defined.

Lemma second_response_replaces_the_first_witness :
  let first := CommandResponseQueryID.raw (CommandResponseQueryID.ctor x07) in
  let second := CommandResponse.raw (CommandResponse.ctor CMD_RESPONSE_BUSY x00) in
  well_formed device7 /\
  exists this1 this2 this3,
    PostResponse (Some first) device7 = Done (tt, this1, [CallPostResponse (Some first)]) /\
    PostResponse (Some second) this1 = Done (tt, this2, [CallPostResponse (Some second)]) /\
    GetResponse this2 = Done (AtResponseBuffer, this3, []) /\
    response_at AtResponseBuffer this3 =
      second ++ skipn (length second)
                  (first ++ skipn (length first) (ResponseBuffer device7)) /\
    GetResponse this3 = Done (AtResponseNotReady, this3, []).
Proof.
  intros first second.
  assert (Hwf : well_formed device7) by (split; reflexivity).
  split; [ exact Hwf | ].
  apply (@second_response_replaces_the_first unit device7 first second Hwf);
    first [ reflexivity | vm_compute; lia ].
Defined.

Lemma typed_write_then_read_gives_the_value_witness :
  let value := CommandResponseQueryID.ctor x07 in
  let other := CommandResponseQueryID.ctor x00 in
  sizeof (T := CommandResponseQueryID.t) < uint16_range /\
  exists sent,
    I2C_Write {| rx := []; tx := [] |} value =
      Done (4, {| rx := []; tx := sent |}) /\
    I2C_Read_T {| rx := sent ++ [x09]; tx := [] |} other =
      Done (4, {| rx := [x09]; tx := [] |}, [x04; x00; x00; x07]).
Proof.
  intros value other.
  assert (Hrange : sizeof (T := CommandResponseQueryID.t) < uint16_range)
    by (apply Nat.ltb_lt; vm_compute; reflexivity).
  split; [ exact Hrange | ].
  destruct (@typed_write_then_read_gives_the_value _ _ {| rx := []; tx := [] |}
              value other [x09] Hrange) as (sent & Hwrite & Hsent & Hread).
  exists sent. split; [ exact Hwrite | ].
  exact (Hread {| rx := sent ++ [x09]; tx := [] |} eq_refl).
Defined.

Lemma I2C_SendMessage_passes_failure_on_witness :
  let twi := {| rx := []; tx := [] |} in
  I2C_SendMessage addressing refusing (answering [x04; x00; x00; x07])
    twi x08 [x02; x01] x02 (Some [xaa; xaa; xaa; xaa]) x04 =
  Done (2, {| rx := []; tx := [x02; x01] |}, Some [xaa; xaa; xaa; xaa]).
Proof.
  intros twi.
  apply (@I2C_SendMessage_passes_failure_on addressing refusing
           (answering [x04; x00; x00; x07]) twi x08 [x02; x01] x02
           (Some [xaa; xaa; xaa; xaa]) x04 2 {| rx := []; tx := [x02; x01] |});
    [ vm_compute; lia | reflexivity | discriminate ].
Defined.

Lemma I2C_SendMessage_response_is_bounded_witness :
  let twi := {| rx := []; tx := [] |} in
  I2C_SendMessage addressing acknowledging (answering [x04; x00; x00; x07; x55; x55])
    twi x08 [x02; x01] x02 (Some [xaa; xaa; xaa; xaa; xaa]) x04 =
  Done (0, {| rx := []; tx := [x02; x01] |}, Some [x04; x00; x00; x07; xaa]).
Proof.
  intros twi.
  exact (proj1 (@I2C_SendMessage_response_is_bounded addressing acknowledging
                  (answering [x04; x00; x00; x07; x55; x55]) twi x08 [x02; x01] x02
                  [xaa; xaa; xaa; xaa; xaa] x04 {| rx := []; tx := [x02; x01] |} 4
                  {| rx := [x04; x00; x00; x07]; tx := [x02; x01] |}
                  ltac:(vm_compute; lia) ltac:(vm_compute; lia) eq_refl eq_refl)).
Defined.

Lemma I2C_SendMessage_variants_agree_witness :
  let twi := {| rx := []; tx := [] |} in
  sizeof (T := CommandMessage.t) <= 255 /\
  I2C_SendMessage_T addressing acknowledging twi x08 (CommandMessage.ctor CMD_RESET_DEVICE) =
    I2C_SendMessage_only addressing acknowledging twi x08 [x02; x03] x02.
Proof.
  intros twi.
  assert (Hsmall : sizeof (T := CommandMessage.t) <= 255) by (vm_compute; lia).
  split; [ exact Hsmall | ].
  exact (proj2 (@I2C_SendMessage_variants_agree addressing acknowledging
                  (answering []) CommandMessage.t Repr_CommandMessage twi x08
                  [] x00 x00 (CommandMessage.ctor CMD_RESET_DEVICE) Hsmall)).
Defined.

Lemma I2C_SendCommand_is_a_message_led_by_the_code_witness :
  let twi := {| rx := []; tx := [] |} in
  I2C_SendCommand addressing acknowledging (answering [x04; x00; x00; x07])
    twi x08 CMD_ECHO (Some [x41; x42]) 2 None 0 =
  I2C_SendMessage addressing acknowledging (answering [x04; x00; x00; x07])
    twi x08 [CMD_ECHO; x41; x42] x03 None x00.
Proof.
  intros twi.
  exact (proj1 (@I2C_SendCommand_is_a_message_led_by_the_code addressing acknowledging
                  (answering [x04; x00; x00; x07]) twi x08 CMD_ECHO [x41; x42] 2
                  None 0 ltac:(vm_compute; lia) ltac:(lia) ltac:(lia))).
Defined.

Lemma typed_request_fills_the_response_witness :
  let twi := {| rx := []; tx := [] |} in
  I2C_SendRequest_R addressing acknowledging (answering [x04; x00; x00; x07])
    twi x08 CMD_QUERY_ID (CommandResponseQueryID.ctor x00) =
  Done (0, {| rx := []; tx := [CMD_QUERY_ID] |}, Some [x04; x00; x00; x07]).
Proof.
  intros twi.
  apply (proj1 (@typed_request_fills_the_response addressing acknowledging
                  (answering [x04; x00; x00; x07]) CommandResponseQueryID.t
                  Repr_CommandResponseQueryID twi x08 CMD_QUERY_ID
                  (CommandResponseQueryID.ctor x00)
                  {| rx := []; tx := [CMD_QUERY_ID] |} 4
                  {| rx := [x04; x00; x00; x07]; tx := [CMD_QUERY_ID] |}
                  eq_refl eq_refl));
    vm_compute; lia.
Defined.
